(** * Shader resource cache of the Vulkan back end

    A shallow embedding of [ShaderResourceCacheVk.cpp]
    (Graphics/GraphicsEngineVulkan/src): the flat, allocator-backed block of
    descriptor-set headers followed by resource slots, its initialisation and
    teardown, and the resource-state transition pass in its two instances
    [TransitionResources<true>] (verify) and [TransitionResources<false>]
    (apply).

    Conventions of the embedding:
    - [Uint32] values are [Z] with the wrap-around at [2^32] written out where
      the source adds them; [size_t] is 64 bits wide;
    - pointers are byte addresses in [Z], [nullptr] is [0]; objects that the
      source constructs in place live in a [gmap] from their address;
    - member functions are computations in a state-and-fault monad over the
      [World]: the cache object, the raw memory it owns, the Vulkan objects
      the slots refer to, the command stream of the device context and the
      debug message sink. *)

From Stdlib Require Import ZArith String Ascii List Lia.
From stdpp Require Import base option list list_numbers functions gmap.

Local Open Scope Z_scope.

(** ** Machine integers *)

Definition Uint32_MAX : Z := 2 ^ 32 - 1.
Definition wrap32 (x : Z) : Z := x mod 2 ^ 32.
Definition wrap_size_t (x : Z) : Z := x mod 2 ^ 64.
Definition is_Uint32 (x : Z) : Prop := 0 ≤ x ≤ Uint32_MAX.

(** ** Vulkan constants used by the cache (vulkan_core.h) *)

Module Vk.
Definition VK_ACCESS_UNIFORM_READ_BIT : Z := 0x8.
Definition VK_ACCESS_SHADER_READ_BIT : Z := 0x20.
Definition VK_ACCESS_SHADER_WRITE_BIT : Z := 0x40.
Definition VK_IMAGE_LAYOUT_UNDEFINED : Z := 0.
Definition VK_IMAGE_LAYOUT_GENERAL : Z := 1.
Definition VK_IMAGE_LAYOUT_SHADER_READ_ONLY_OPTIMAL : Z := 5.
End Vk.
Export Vk.

(** ** Data model *)

(** [SPIRVShaderResourceAttribs::ResourceType].  The nine enumerators are the
    ones the transition pass names; [UnknownType] stands for every other
    value the tag can hold. *)
Inductive ResourceType :=
  | UniformBuffer
  | StorageBuffer
  | UniformTexelBuffer
  | StorageTexelBuffer
  | SeparateImage
  | SampledImage
  | StorageImage
  | AtomicCounter
  | SeparateSampler
  | UnknownType (tag : N).

(** The dynamic type of the object behind a slot's [RefCntAutoPtr<IDeviceObject>].
    Buffers and textures carry mutable native state and are referred to by
    identity; a view is immutable and is given by the object it views. *)
Inductive IDeviceObject :=
  | ObjBufferVk (buffer : N)
  | ObjBufferViewVk (buffer : N)
  | ObjTextureViewVk (texture : N)
  | ObjSamplerVk (sampler : N).

Record BufferVkImpl := mkBuffer {
  BufferName : string;
  AccessFlags : Z
}.

Record TextureVkImpl := mkTexture {
  TextureName : string;
  Layout : Z
}.

(** [ShaderResourceCacheVk::Resource]: the kind tag and the bound object
    ([None] is the empty [RefCntAutoPtr]). *)
Record Resource := mkResource {
  Type_ : ResourceType;
  pObject : option IDeviceObject
}.

(** [ShaderResourceCacheVk::DescriptorSet]: the slot count and the non-owning
    pointer to the set's first slot. *)
Record DescriptorSet := mkDescriptorSet {
  m_NumResources : Z;
  m_pResources : Z
}.

Record IMemoryAllocator := mkAllocator {
  AllocatorId : N;
  NextBlock : positive
}.

(** What lives at an address of the block. *)
Inductive Cell :=
  | CellSet (d : DescriptorSet)
  | CellRes (r : Resource).

(** Commands the device context records. *)
Inductive Command :=
  | CmdBufferMemoryBarrier (buffer : N) (NewAccessFlags : Z)
  | CmdTransitionImageLayout (texture : N) (NewLayout : Z).

(** Allocation and object-lifetime events. *)
Inductive Event :=
  | EvAllocate (allocator : N) (size : Z) (block : Z)
  | EvDestroyResource (addr : Z) (released : option IDeviceObject)
  | EvDestroyDescriptorSet (addr : Z)
  | EvFree (allocator : N) (block : Z).

(** The members of [ShaderResourceCacheVk]. *)
Record ShaderResourceCacheVk := mkCache {
  m_pAllocator : option IMemoryAllocator;
  m_pMemory : Z;
  m_NumSets : Z;
  m_TotalResources : Z
}.

Record World := mkWorld {
  Cache : ShaderResourceCacheVk;
  Heap : gmap Z Cell;
  Buffers : N → BufferVkImpl;
  Textures : N → TextureVkImpl;
  Commands : list Command;
  Log : list string;
  Trace : list Event
}.

Definition with_Cache (c : ShaderResourceCacheVk) (w : World) : World :=
  mkWorld c (Heap w) (Buffers w) (Textures w) (Commands w) (Log w) (Trace w).
Definition with_Heap (h : gmap Z Cell) (w : World) : World :=
  mkWorld (Cache w) h (Buffers w) (Textures w) (Commands w) (Log w) (Trace w).
Definition with_Buffers (b : N → BufferVkImpl) (w : World) : World :=
  mkWorld (Cache w) (Heap w) b (Textures w) (Commands w) (Log w) (Trace w).
Definition with_Textures (t : N → TextureVkImpl) (w : World) : World :=
  mkWorld (Cache w) (Heap w) (Buffers w) t (Commands w) (Log w) (Trace w).
Definition with_Commands (c : list Command) (w : World) : World :=
  mkWorld (Cache w) (Heap w) (Buffers w) (Textures w) c (Log w) (Trace w).
Definition with_Log (l : list string) (w : World) : World :=
  mkWorld (Cache w) (Heap w) (Buffers w) (Textures w) (Commands w) l (Trace w).
Definition with_Trace (t : list Event) (w : World) : World :=
  mkWorld (Cache w) (Heap w) (Buffers w) (Textures w) (Commands w) (Log w) t.

Definition set_pAllocator (a : option IMemoryAllocator) (c : ShaderResourceCacheVk) :=
  mkCache a (m_pMemory c) (m_NumSets c) (m_TotalResources c).
Definition set_pMemory (p : Z) (c : ShaderResourceCacheVk) :=
  mkCache (m_pAllocator c) p (m_NumSets c) (m_TotalResources c).
Definition set_NumSets (n : Z) (c : ShaderResourceCacheVk) :=
  mkCache (m_pAllocator c) (m_pMemory c) n (m_TotalResources c).
Definition set_TotalResources (n : Z) (c : ShaderResourceCacheVk) :=
  mkCache (m_pAllocator c) (m_pMemory c) (m_NumSets c) n.

(** A default-constructed cache: no allocator, no memory, no sets. *)
Definition empty_cache : ShaderResourceCacheVk := mkCache None 0 0 0.

(** ** The state-and-fault monad *)

(** The ways a call can stop short.  The first three are the fatal conditions
    of the cache; the others mark accesses on which C++ defines no
    behaviour. *)
Inductive Fault :=
  | AlreadyInitialized
  | LayoutInvariantViolated
  | UnexpectedResourceKind
  | NullDereference
  | BadCast
  | UninitializedRead
  | OutOfRange.

Inductive Outcome (A : Type) :=
  | Done (a : A) (w : World)
  | Abort (f : Fault) (w : World).
Arguments Done {A} a w.
Arguments Abort {A} f w.

Definition M (A : Type) : Type := World → Outcome A.

#[global] Instance M_ret : MRet M := λ A a w, Done a w.
#[global] Instance M_bind : MBind M := λ A B f m w,
  match m w with
  | Done a w' => f a w'
  | Abort e w' => Abort e w'
  end.

Definition get : M World := λ w, Done w w.
Definition modify (f : World → World) : M unit := λ w, Done tt (f w).
Definition abort {A} (e : Fault) : M A := λ w, Abort e w.

(** [for (Uint32 i = 0; i < n; ++i) body], as a loop over [seqZ 0 n], with
    the local variables the body updates passed along. *)
Fixpoint for_fold {A B} (l : list A) (body : A → B → M B) (b : B) : M B :=
  match l with
  | [] => mret b
  | x :: l' => b' ← body x b; for_fold l' body b'
  end.

Definition for_each {A} (l : list A) (body : A → M unit) : M unit :=
  for_fold l (λ x _, body x) tt.

Definition modify_cache (f : ShaderResourceCacheVk → ShaderResourceCacheVk) : M unit :=
  modify (λ w, with_Cache (f (Cache w)) w).

(** Modelled from the spec: the assertion macros [VERIFY] and [VERIFY_EXPR]
    are not among the sources.  The spec calls the conditions they guard
    fatal: the failing call is aborted on the spot ([AlreadyInitialized]
    "aborts the initialization call, leaves prior state intact"; the layout
    equality is "a checked invariant").  A failed assertion therefore ends
    the computation with the given fault, in the state reached so far. *)
Definition VERIFY (Expr : bool) (e : Fault) : M unit :=
  if Expr then mret tt else abort e.

(** Modelled from the spec: the macro [UNEXPECTED], not among the sources, is
    the assertion that always fails; the spec has the unclassified kind as a
    fatal condition that must not be skipped silently. *)
Definition UNEXPECTED : M unit := abort UnexpectedResourceKind.

(** Modelled from the spec: the logging macro [LOG_ERROR_MESSAGE] is not
    among the sources.  The spec has verify mode hand each mismatch to a
    diagnostic sink without aborting the pass; the message, the
    concatenation of the macro's arguments, is appended to [Log]. *)
Definition LOG_ERROR_MESSAGE (parts : list string) : M unit :=
  modify (λ w, with_Log (Log w ++ [fold_right String.append EmptyString parts]) w).

(** [ALLOCATE(Allocator, Desc, Size)]: the allocator capability of the spec,
    [allocate(size) -> raw block]; the block is never null. *)
Definition ALLOCATE (Allocator : IMemoryAllocator) (Size : Z) : M Z :=
  let p := Z.pos (NextBlock Allocator) in
  modify (λ w, with_Trace (Trace w ++ [EvAllocate (AllocatorId Allocator) Size p]) w);;
  mret p.

Definition Free (Allocator : IMemoryAllocator) (Ptr : Z) : M unit :=
  modify (λ w, with_Trace (Trace w ++ [EvFree (AllocatorId Allocator) Ptr]) w).

(** Placement new: an object is constructed at an address of the block. *)
Definition construct (addr : Z) (c : Cell) : M unit :=
  modify (λ w, with_Heap (<[addr := c]> (Heap w)) w).

Definition load_DescriptorSet (addr : Z) : M DescriptorSet :=
  w ← get;
  match Heap w !! addr with
  | Some (CellSet d) => mret d
  | _ => abort UninitializedRead
  end.

Definition load_Resource (addr : Z) : M Resource :=
  w ← get;
  match Heap w !! addr with
  | Some (CellRes r) => mret r
  | _ => abort UninitializedRead
  end.

(** [SetSizes[t]] on the caller's array. *)
Definition array_read (a : list Z) (i : Z) : M Z :=
  match a !! Z.to_nat i with
  | Some x => mret x
  | None => abort OutOfRange
  end.

Definition is_nullptr {A} (p : option A) : bool :=
  match p with None => true | Some _ => false end.

Definition dquote : string := String (ascii_of_nat 34) EmptyString.

Definition forgot_to_transition : string :=
   " is not in correct state. Did you forget to call TransitionShaderResources() or specify COMMIT_SHADER_RESOURCES_FLAG_TRANSITION_RESOURCES flag in a call to CommitShaderResources()?".

Definition ResourceType_eqb (a b : ResourceType) : bool :=
  match a, b with
  | UniformBuffer, UniformBuffer
  | StorageBuffer, StorageBuffer
  | UniformTexelBuffer, UniformTexelBuffer
  | StorageTexelBuffer, StorageTexelBuffer
  | SeparateImage, SeparateImage
  | SampledImage, SampledImage
  | StorageImage, StorageImage
  | AtomicCounter, AtomicCounter
  | SeparateSampler, SeparateSampler => true
  | UnknownType m, UnknownType n => N.eqb m n
  | _, _ => false
  end.

(** [Res.pObject.RawPtr<T>()] followed by the first member access through
    the pointer: an empty handle gives a null pointer, an object of another
    dynamic type a bad cast. *)
Definition RawPtr_BufferVkImpl (p : option IDeviceObject) : M N :=
  match p with
  | None => abort NullDereference
  | Some (ObjBufferVk b) => mret b
  | Some _ => abort BadCast
  end.

(** [RawPtr<BufferViewVkImpl>()] and [ValidatedCast<BufferVkImpl>(GetBuffer())]. *)
Definition RawPtr_BufferViewVkImpl_GetBuffer (p : option IDeviceObject) : M N :=
  match p with
  | None => abort NullDereference
  | Some (ObjBufferViewVk b) => mret b
  | Some _ => abort BadCast
  end.

(** [RawPtr<TextureViewVkImpl>()] and [ValidatedCast<TextureVkImpl>(GetTexture())]. *)
Definition RawPtr_TextureViewVkImpl_GetTexture (p : option IDeviceObject) : M N :=
  match p with
  | None => abort NullDereference
  | Some (ObjTextureViewVk t) => mret t
  | Some _ => abort BadCast
  end.

Definition GetAccessFlags (pBufferVk : N) : M Z :=
  w ← get; mret (AccessFlags (Buffers w pBufferVk)).
Definition GetBufferName (pBufferVk : N) : M string :=
  w ← get; mret (BufferName (Buffers w pBufferVk)).
Definition GetLayout (pTextureVk : N) : M Z :=
  w ← get; mret (Layout (Textures w pTextureVk)).
Definition GetTextureName (pTextureVk : N) : M string :=
  w ← get; mret (TextureName (Textures w pTextureVk)).

(** Modelled from the spec: [DeviceContextVkImpl::BufferMemoryBarrier], not
    among the sources, is the operation [requestMemoryBarrier(resource,
    requiredAccessState)] of the command-submission collaborator: one request
    is recorded and the buffer's access state becomes the required one (spec
    8.6: "B's access state becomes the uniform-read state and one barrier
    request is recorded for B"). *)
Definition BufferMemoryBarrier (BufferVk : N) (NewAccessFlags : Z) : M unit :=
  modify (λ w,
    with_Commands (Commands w ++ [CmdBufferMemoryBarrier BufferVk NewAccessFlags])
      (with_Buffers
         (<[BufferVk := mkBuffer (BufferName (Buffers w BufferVk)) NewAccessFlags]> (Buffers w)) w)).

(** Modelled from the spec: [DeviceContextVkImpl::TransitionImageLayout], not
    among the sources, is [requestLayoutTransition(resource, requiredLayout)]:
    one request is recorded and the texture's layout becomes the required
    one (spec 8.6: "T's layout becomes shader-read-only and one
    layout-transition request is recorded for T"). *)
Definition TransitionImageLayout (TextureVk : N) (NewLayout : Z) : M unit :=
  modify (λ w,
    with_Commands (Commands w ++ [CmdTransitionImageLayout TextureVk NewLayout])
      (with_Textures
         (<[TextureVk := mkTexture (TextureName (Textures w TextureVk)) NewLayout]> (Textures w)) w)).

(** The destructors of the objects constructed in place.  [~Resource]
    releases the slot's reference to the bound object. *)
Definition destroy_Resource (addr : Z) : M unit :=
  Res ← load_Resource addr;
  modify (λ w, with_Trace (Trace w ++ [EvDestroyResource addr (pObject Res)])
                 (with_Heap (delete addr (Heap w)) w)).

Definition destroy_DescriptorSet (addr : Z) : M unit :=
  _ ← load_DescriptorSet addr;
  modify (λ w, with_Trace (Trace w ++ [EvDestroyDescriptorSet addr])
                 (with_Heap (delete addr (Heap w)) w)).

(** ** The member functions of [ShaderResourceCacheVk] *)

(** [sizeof(DescriptorSet)] and [sizeof(Resource)]: the two classes are
    declared in the header; only their sizes matter to the layout.  An object
    size is positive; it is taken to be below [2^31], so that the [size_t]
    arithmetic of [InitializeSets] on [Uint32] counts is exact. *)
Class ObjectSizes := {
  sizeof_DescriptorSet : Z;
  sizeof_Resource : Z;
  sizeof_DescriptorSet_range : 0 < sizeof_DescriptorSet < 2 ^ 31;
  sizeof_Resource_range : 0 < sizeof_Resource < 2 ^ 31
}.

Section ShaderResourceCacheVk.

Context `{ObjectSizes}.

(** Modelled from the spec: the accessor [GetDescriptorSet] of the cache is
    declared in the header, which is not among the sources.  The spec has it
    as "direct addressed access into the flat layout", an index out of range
    being a caller error: the address is computed from the base pointer and
    the index, and an index out of range is a fault. *)
Definition GetDescriptorSet (Index : Z) : M Z :=
  w ← get;
  if Index <? m_NumSets (Cache w)
  then mret (m_pMemory (Cache w) + Index * sizeof_DescriptorSet)
  else abort OutOfRange.

(** Modelled from the spec: [DescriptorSet::GetResource], declared in the
    same header, is the direct addressed access into the set's slot view; an
    offset outside the view is a fault. *)
Definition GetResource (DescrSet : DescriptorSet) (CacheOffset : Z) : M Z :=
  if CacheOffset <? m_NumResources DescrSet
  then mret (m_pResources DescrSet + CacheOffset * sizeof_Resource)
  else abort OutOfRange.

(** [reinterpret_cast<Resource*>(reinterpret_cast<DescriptorSet*>(m_pMemory) + m_NumSets)] *)
Definition pResources_of (c : ShaderResourceCacheVk) : Z :=
  m_pMemory c + m_NumSets c * sizeof_DescriptorSet.

(** Pointers are 64 bits wide.  An address stands for the pointer value it
    is congruent to modulo [2^64], the value that pointer arithmetic keeps,
    and [==] on two pointers compares these values. *)
Definition ptr_eqb (p q : Z) : bool := wrap_size_t p =? wrap_size_t q.

Definition InitializeSets (MemAllocator : IMemoryAllocator) (NumSets : Z)
    (SetSizes : list Z) : M unit :=
  w ← get;
  VERIFY (is_nullptr (m_pAllocator (Cache w)) && (m_pMemory (Cache w) =? 0))
         AlreadyInitialized;;
  modify_cache (set_pAllocator (Some MemAllocator));;
  modify_cache (set_NumSets NumSets);;
  modify_cache (set_TotalResources 0);;
  for_each (seqZ 0 NumSets) (λ t,
    s ← array_read SetSizes t;
    modify_cache (λ c, set_TotalResources (wrap32 (m_TotalResources c + s)) c));;
  w ← get;
  let MemorySize :=
    wrap_size_t (NumSets * sizeof_DescriptorSet
                 + m_TotalResources (Cache w) * sizeof_Resource) in
  if 0 <? MemorySize then
    p ← ALLOCATE MemAllocator MemorySize;
    modify_cache (set_pMemory p);;
    w ← get;
    let pSets := m_pMemory (Cache w) in
    pCurrResPtr ← for_fold (seqZ 0 NumSets) (λ t pCurrResPtr,
        s ← array_read SetSizes t;
        a ← GetDescriptorSet t;
        construct a (CellSet (mkDescriptorSet s (if 0 <? s then pCurrResPtr else 0)));;
        mret (pCurrResPtr + s * sizeof_Resource))
      (pSets + m_NumSets (Cache w) * sizeof_DescriptorSet);
    w ← get;
    VERIFY (ptr_eqb pCurrResPtr (m_pMemory (Cache w) + MemorySize))
           LayoutInvariantViolated
  else mret tt.

Definition InitializeResources (Set_ Offset ArraySize : Z) (Type_ : ResourceType) : M unit :=
  pDescrSet ← GetDescriptorSet Set_;
  for_each (seqZ 0 ArraySize) (λ res,
    DescrSet ← load_DescriptorSet pDescrSet;
    a ← GetResource DescrSet (wrap32 (Offset + res));
    construct a (CellRes (mkResource Type_ None))).

(** Modelled from the spec: the binding code is not among the sources.  The
    spec has it as [setSlot(setIndex, slotIndex, resourceHandle)], which
    "replaces/clears the bound-object of an already-typed slot". *)
Definition SetResource (Set_ CacheOffset : Z) (pObj : option IDeviceObject) : M unit :=
  pDescrSet ← GetDescriptorSet Set_;
  DescrSet ← load_DescriptorSet pDescrSet;
  a ← GetResource DescrSet CacheOffset;
  Res ← load_Resource a;
  construct a (CellRes (mkResource (Type_ Res) pObj)).

(** [~ShaderResourceCacheVk] *)
Definition destroy_ShaderResourceCacheVk : M unit :=
  w ← get;
  if negb (m_pMemory (Cache w) =? 0) then
    let pResources := pResources_of (Cache w) in
    for_each (seqZ 0 (m_TotalResources (Cache w))) (λ res,
      destroy_Resource (pResources + res * sizeof_Resource));;
    for_each (seqZ 0 (m_NumSets (Cache w))) (λ t,
      a ← GetDescriptorSet t; destroy_DescriptorSet a);;
    match m_pAllocator (Cache w) with
    | Some a => Free a (m_pMemory (Cache w))
    | None => abort NullDereference
    end
  else mret tt.

(** The body of the loop of [TransitionResources]: the [switch] on
    [Res.Type]. *)
Definition TransitionResource (VerifyOnly : bool) (Res : Resource) : M unit :=
  match Type_ Res with
  | UniformBuffer | StorageBuffer =>
      pBufferVk ← RawPtr_BufferVkImpl (pObject Res);
      let RequiredAccessFlags :=
        if ResourceType_eqb (Type_ Res) UniformBuffer
        then VK_ACCESS_UNIFORM_READ_BIT
        else Z.lor VK_ACCESS_SHADER_READ_BIT VK_ACCESS_SHADER_WRITE_BIT in
      flags ← GetAccessFlags pBufferVk;
      if negb (flags =? RequiredAccessFlags) then
        if VerifyOnly then
          name ← GetBufferName pBufferVk;
          LOG_ERROR_MESSAGE ["Buffer "%string; dquote; name; dquote; forgot_to_transition]
        else BufferMemoryBarrier pBufferVk RequiredAccessFlags
      else mret tt
  | UniformTexelBuffer | StorageTexelBuffer =>
      pBufferVk ← RawPtr_BufferViewVkImpl_GetBuffer (pObject Res);
      let RequiredAccessFlags :=
        if ResourceType_eqb (Type_ Res) UniformTexelBuffer
        then VK_ACCESS_SHADER_READ_BIT
        else Z.lor VK_ACCESS_SHADER_READ_BIT VK_ACCESS_SHADER_WRITE_BIT in
      flags ← GetAccessFlags pBufferVk;
      if negb (flags =? RequiredAccessFlags) then
        if VerifyOnly then
          name ← GetBufferName pBufferVk;
          LOG_ERROR_MESSAGE ["Buffer "%string; dquote; name; dquote; forgot_to_transition]
        else BufferMemoryBarrier pBufferVk RequiredAccessFlags
      else mret tt
  | SeparateImage | SampledImage | StorageImage =>
      pTextureVk ← RawPtr_TextureViewVkImpl_GetTexture (pObject Res);
      let RequiredLayout :=
        if ResourceType_eqb (Type_ Res) StorageImage
        then VK_IMAGE_LAYOUT_GENERAL
        else VK_IMAGE_LAYOUT_SHADER_READ_ONLY_OPTIMAL in
      layout ← GetLayout pTextureVk;
      if negb (layout =? RequiredLayout) then
        if VerifyOnly then
          name ← GetTextureName pTextureVk;
          LOG_ERROR_MESSAGE ["Texture "%string; dquote; name; dquote; forgot_to_transition]
        else TransitionImageLayout pTextureVk RequiredLayout
      else mret tt
  | AtomicCounter => mret tt
  | SeparateSampler => mret tt
  | UnknownType _ => UNEXPECTED
  end.

(** [pResources[res]] in the loop of [TransitionResources]. *)
Definition visit (VerifyOnly : bool) (pResources res : Z) : M unit :=
  Res ← load_Resource (pResources + res * sizeof_Resource);
  TransitionResource VerifyOnly Res.

Definition TransitionResources (VerifyOnly : bool) : M unit :=
  w ← get;
  let pResources := pResources_of (Cache w) in
  for_each (seqZ 0 (m_TotalResources (Cache w))) (visit VerifyOnly pResources).


(** ** Observations on outcomes *)

Definition final {A} (o : Outcome A) : World :=
  match o with Done _ w => w | Abort _ w => w end.

Definition completed {A} (o : Outcome A) : bool :=
  match o with Done _ _ => true | Abort _ _ => false end.

(** ** The transition table of the spec *)

(** What the table of the spec asks of a slot of a given kind. *)
Inductive Requirement :=
  | AccessOfBuffer (flags : Z)
  | AccessOfViewedBuffer (flags : Z)
  | LayoutOfViewedTexture (layout : Z)
  | NoStateRequirement.

Definition spec_required_state (kind : ResourceType) : option Requirement :=
  match kind with
  | UniformBuffer => Some (AccessOfBuffer VK_ACCESS_UNIFORM_READ_BIT)
  | StorageBuffer =>
      Some (AccessOfBuffer (Z.lor VK_ACCESS_SHADER_READ_BIT VK_ACCESS_SHADER_WRITE_BIT))
  | UniformTexelBuffer => Some (AccessOfViewedBuffer VK_ACCESS_SHADER_READ_BIT)
  | StorageTexelBuffer =>
      Some (AccessOfViewedBuffer (Z.lor VK_ACCESS_SHADER_READ_BIT VK_ACCESS_SHADER_WRITE_BIT))
  | SeparateImage => Some (LayoutOfViewedTexture VK_IMAGE_LAYOUT_SHADER_READ_ONLY_OPTIMAL)
  | SampledImage => Some (LayoutOfViewedTexture VK_IMAGE_LAYOUT_SHADER_READ_ONLY_OPTIMAL)
  | StorageImage => Some (LayoutOfViewedTexture VK_IMAGE_LAYOUT_GENERAL)
  | AtomicCounter => Some NoStateRequirement
  | SeparateSampler => Some NoStateRequirement
  | UnknownType _ => None
  end.

(** The buffer or texture whose native state a slot depends on. *)
Inductive NativeResource :=
  | NativeBuffer (b : N)
  | NativeTexture (t : N).

#[global] Instance NativeResource_eq_dec : EqDecision NativeResource.
Proof. solve_decision. Defined.

(** What a slot asks for, given its kind and what is bound to it. *)
Inductive Demand :=
  | Requires (r : NativeResource) (state : Z)
  | RequiresNothing
  | Faulty (f : Fault).

Definition demand (Res : Resource) : Demand :=
  match spec_required_state (Type_ Res) with
  | None => Faulty UnexpectedResourceKind
  | Some NoStateRequirement => RequiresNothing
  | Some (AccessOfBuffer flags) =>
      match pObject Res with
      | None => Faulty NullDereference
      | Some (ObjBufferVk b) => Requires (NativeBuffer b) flags
      | Some _ => Faulty BadCast
      end
  | Some (AccessOfViewedBuffer flags) =>
      match pObject Res with
      | None => Faulty NullDereference
      | Some (ObjBufferViewVk b) => Requires (NativeBuffer b) flags
      | Some _ => Faulty BadCast
      end
  | Some (LayoutOfViewedTexture layout) =>
      match pObject Res with
      | None => Faulty NullDereference
      | Some (ObjTextureViewVk t) => Requires (NativeTexture t) layout
      | Some _ => Faulty BadCast
      end
  end.

Definition native_state (w : World) (r : NativeResource) : Z :=
  match r with
  | NativeBuffer b => AccessFlags (Buffers w b)
  | NativeTexture t => Layout (Textures w t)
  end.

(** The diagnostic of verify mode and the request of apply mode. *)
Definition mismatch_message (w : World) (r : NativeResource) : string :=
  match r with
  | NativeBuffer b =>
      fold_right String.append EmptyString
        ["Buffer "%string; dquote; BufferName (Buffers w b); dquote; forgot_to_transition]
  | NativeTexture t =>
      fold_right String.append EmptyString
        ["Texture "%string; dquote; TextureName (Textures w t); dquote; forgot_to_transition]
  end.

Definition report (r : NativeResource) : M unit :=
  λ w, Done tt (with_Log (Log w ++ [mismatch_message w r]) w).

Definition request (r : NativeResource) (state : Z) : M unit :=
  match r with
  | NativeBuffer b => BufferMemoryBarrier b state
  | NativeTexture t => TransitionImageLayout t state
  end.

(** The row of the table for one slot, in the words of the spec: nothing for
    a kind without a state requirement; otherwise the current state of the
    underlying resource is compared with the required one and, on a
    mismatch, verify mode reports and apply mode requests the transition. *)
Definition spec_TransitionResource (VerifyOnly : bool) (Res : Resource) : M unit :=
  match demand Res with
  | Faulty f => abort f
  | RequiresNothing => mret tt
  | Requires r state =>
      w ← get;
      if native_state w r =? state then mret tt
      else if VerifyOnly then report r else request r state
  end.

(** ** Views of the flat layout *)

Definition Zsum (l : list Z) : Z := foldr Z.add 0 l.

(** The address [GetDescriptorSet(t)] computes, and the header found there. *)
Definition DescriptorSet_addr (c : ShaderResourceCacheVk) (t : Z) : Z :=
  m_pMemory c + t * sizeof_DescriptorSet.

Definition header_at (w : World) (t : Z) : option DescriptorSet :=
  match Heap w !! DescriptorSet_addr (Cache w) t with
  | Some (CellSet d) => Some d
  | _ => None
  end.

Definition set_headers (w : World) : list (option DescriptorSet) :=
  header_at w <$> seqZ 0 (m_NumSets (Cache w)).

(** The address of [pResources[res]] in the flat slot array, as the
    destructor and the transition pass compute it, and the slot found
    there. *)
Definition Resource_addr (c : ShaderResourceCacheVk) (res : Z) : Z :=
  pResources_of c + res * sizeof_Resource.

Definition slot_at (w : World) (res : Z) : option Resource :=
  match Heap w !! Resource_addr (Cache w) res with
  | Some (CellRes r) => Some r
  | _ => None
  end.

Definition flat_slots (c : ShaderResourceCacheVk) : list Z :=
  Resource_addr c <$> seqZ 0 (m_TotalResources c).

Definition slots (w : World) : list (option Resource) :=
  slot_at w <$> seqZ 0 (m_TotalResources (Cache w)).

(** The addresses a set reaches through [GetResource]: its slot view. *)
Definition slot_view (d : DescriptorSet) : list Z :=
  (λ i, m_pResources d + i * sizeof_Resource) <$> seqZ 0 (m_NumResources d).

(** The headers of sets of sizes [l] when the first slot of the first of
    them is at [cur]: each set views the slice that starts where the
    previous one ends; an empty set views nothing. *)
Fixpoint headers_from (cur : Z) (l : list Z) : list DescriptorSet :=
  match l with
  | [] => []
  | s :: l' =>
      mkDescriptorSet s (if 0 <? s then cur else 0)
      :: headers_from (cur + s * sizeof_Resource) l'
  end.

(** The block after the headers [ds] have been constructed for the sets
    [t], [t + 1], ... *)
Fixpoint lay_headers (pSets t : Z) (ds : list DescriptorSet) (h : gmap Z Cell)
    : gmap Z Cell :=
  match ds with
  | [] => h
  | d :: ds' =>
      lay_headers pSets (t + 1) ds'
        (<[pSets + t * sizeof_DescriptorSet := CellSet d]> h)
  end.

(** [getResource(setIndex, slotIndex)]: the slot a set reports at an offset. *)
Definition ReadResource (Set_ CacheOffset : Z) : M Resource :=
  pDescrSet ← GetDescriptorSet Set_;
  DescrSet ← load_DescriptorSet pDescrSet;
  a ← GetResource DescrSet CacheOffset;
  load_Resource a.

(** ** The life of an initialised cache *)

(** What the binding code and the device context do with a cache between
    its initialisation and its teardown. *)
Inductive CacheUse :=
  | UseSetResource (Set_ CacheOffset : Z) (pObj : option IDeviceObject)
  | UseTransitionResources (VerifyOnly : bool).

Definition use (u : CacheUse) : M unit :=
  match u with
  | UseSetResource Set_ CacheOffset pObj => SetResource Set_ CacheOffset pObj
  | UseTransitionResources VerifyOnly => TransitionResources VerifyOnly
  end.

Definition uses (l : list CacheUse) : M unit := for_each l use.

(** Two worlds have the same cells up to the objects bound to the slots:
    the members of the cache are the same, no object of the block has
    appeared or disappeared, the headers are the same and every slot has
    the kind it had. *)
Definition same_cell (c c' : option Cell) : Prop :=
  match c, c' with
  | None, None => True
  | Some (CellSet d), Some (CellSet d') => d = d'
  | Some (CellRes r), Some (CellRes r') => Type_ r = Type_ r'
  | _, _ => False
  end.

Definition same_kinds (w w' : World) : Prop :=
  Cache w' = Cache w ∧ ∀ a, same_cell (Heap w !! a) (Heap w' !! a).

(** ** Teardown traces *)

Definition released_at (w : World) (addr : Z) : option IDeviceObject :=
  match Heap w !! addr with
  | Some (CellRes r) => pObject r
  | _ => None
  end.

Definition slots_destroyed (w : World) : list Event :=
  (λ res, EvDestroyResource (Resource_addr (Cache w) res)
                            (released_at w (Resource_addr (Cache w) res)))
    <$> seqZ 0 (m_TotalResources (Cache w)).

Definition sets_destroyed (w : World) : list Event :=
  (λ t, EvDestroyDescriptorSet (DescriptorSet_addr (Cache w) t))
    <$> seqZ 0 (m_NumSets (Cache w)).

Definition block_freed (w : World) : list Event :=
  match m_pAllocator (Cache w) with
  | Some a => [EvFree (AllocatorId a) (m_pMemory (Cache w))]
  | None => []
  end.

(** Slots in forward order, then set headers in forward order, then the
    block. *)
Definition teardown_trace (w : World) : list Event :=
  slots_destroyed w ++ sets_destroyed w ++ block_freed w.

(** The teardown order in the words of the spec: slots in forward order,
    then the set headers "in reverse order" of their construction, then
    the block. *)
Definition spec_teardown_trace (w : World) : list Event :=
  slots_destroyed w ++ reverse (sets_destroyed w) ++ block_freed w.

(** Every header and every slot of the block has been constructed. *)
Definition fully_constructed (w : World) : bool :=
  forallb (λ t, bool_decide (is_Some (header_at w t))) (seqZ 0 (m_NumSets (Cache w)))
  && forallb (λ res, bool_decide (is_Some (slot_at w res)))
             (seqZ 0 (m_TotalResources (Cache w))).

(** ** Slot-by-slot view of the transition pass *)

(** One iteration of the loop, on what the flat array holds at the index:
    reading memory in which no [Resource] was constructed is a fault. *)
Definition visit_slot (VerifyOnly : bool) (o : option Resource) : M unit :=
  match o with
  | Some Res => TransitionResource VerifyOnly Res
  | None => abort UninitializedRead
  end.

(** The pass stopped before slot [k]. *)
Definition TransitionResources_upto (VerifyOnly : bool) (k : Z) : M unit :=
  w ← get;
  let pResources := pResources_of (Cache w) in
  for_each (seqZ 0 k) (visit VerifyOnly pResources).

(** Does the pass, on reaching slot [k], add to what [count] counts? *)
Definition acts_at (VerifyOnly : bool) (count : World → nat) (w : World) (k : Z) : bool :=
  match TransitionResources_upto VerifyOnly k w with
  | Done _ w1 =>
      match visit VerifyOnly (pResources_of (Cache w)) k w1 with
      | Done _ w2 => negb (count w2 =? count w1)%nat
      | Abort _ _ => false
      end
  | Abort _ _ => false
  end.

(** Verify mode reports a mismatch for slot [k]. *)
Definition reports_at (w : World) (k : Z) : bool :=
  acts_at true (λ w, length (Log w)) w k.

(** Apply mode emits a barrier or layout-transition request for slot [k]. *)
Definition emits_at (w : World) (k : Z) : bool :=
  acts_at false (λ w, length (Commands w)) w k.

Definition slot_demand (o : option Resource) : option (NativeResource * Z) :=
  match o with
  | Some Res =>
      match demand Res with
      | Requires r state => Some (r, state)
      | _ => None
      end
  | None => None
  end.

(** The native resources the slots depend on, with the required states, in
    flat slot order. *)
Definition demands (w : World) : list (NativeResource * Z) :=
  omap slot_demand (slots w).

(** No buffer or texture is the underlying resource of two slots. *)
Definition no_aliasing (w : World) : bool :=
  bool_decide (NoDup (fst <$> demands w)).

(** Slots that share an underlying resource require the same state of it. *)
Definition agree (d1 d2 : NativeResource * Z) : bool :=
  if decide (fst d1 = fst d2) then snd d1 =? snd d2 else true.

Definition consistent_demands (w : World) : bool :=
  forallb (λ d1, forallb (agree d1) (demands w)) (demands w).

(** Every slot whose kind asks for a buffer, a buffer view or a texture
    view holds a bound object. *)
Definition needs_object (kind : ResourceType) : bool :=
  match spec_required_state kind with
  | Some (AccessOfBuffer _) | Some (AccessOfViewedBuffer _)
  | Some (LayoutOfViewedTexture _) => true
  | _ => false
  end.

Definition bound (o : option Resource) : bool :=
  match o with
  | Some Res => implb (needs_object (Type_ Res)) (negb (is_nullptr (pObject Res)))
  | None => true
  end.

Definition all_bound (w : World) : bool := forallb bound (slots w).

(** The class of object the casts of the pass take the binding of a slot to
    be of: a buffer at a buffer slot, a buffer view at a texel-buffer slot, a
    texture view at an image slot. *)
Definition expects (kind : ResourceType) (obj : IDeviceObject) : bool :=
  match spec_required_state kind, obj with
  | Some (AccessOfBuffer _), ObjBufferVk _
  | Some (AccessOfViewedBuffer _), ObjBufferViewVk _
  | Some (LayoutOfViewedTexture _), ObjTextureViewVk _
  | Some NoStateRequirement, _ => true
  | _, _ => false
  end.

(** A slot in order: it has been constructed, its kind is one of the nine,
    and what is bound to it, if anything, is of the class its kind calls
    for.  Whether something is bound is left open. *)
Definition in_order (o : option Resource) : bool :=
  match o with
  | Some Res =>
      match spec_required_state (Type_ Res), pObject Res with
      | None, _ => false
      | Some _, None => true
      | Some _, Some obj => expects (Type_ Res) obj
      end
  | None => false
  end.

Definition all_in_order (w : World) : bool := forallb in_order (slots w).

(** ** Further observations *)

Definition fault_of {A} (o : Outcome A) : option Fault :=
  match o with Done _ _ => None | Abort f _ => Some f end.

(** A demand is met when the resource is in the required state. *)
Definition met (w : World) (d : NativeResource * Z) : bool :=
  native_state w d.1 =? d.2.

Definition all_met (w : World) : bool := forallb (met w) (demands w).

(** The demands that are not met, in flat slot order. *)
Definition mismatches (w : World) : list (NativeResource * Z) :=
  List.filter (λ d, negb (met w d)) (demands w).

(** The request apply mode makes for a demand. *)
Definition command_of (d : NativeResource * Z) : Command :=
  match d.1 with
  | NativeBuffer b => CmdBufferMemoryBarrier b d.2
  | NativeTexture t => CmdTransitionImageLayout t d.2
  end.

#[global] Instance IDeviceObject_eq_dec : EqDecision IDeviceObject.
Proof. solve_decision. Defined.

(** How often a trace releases a reference to an object, and how many slots
    of the flat array hold one. *)
Definition releases (o : IDeviceObject) (tr : list Event) : nat :=
  length (List.filter
            (λ e, match e with
                  | EvDestroyResource _ (Some o') => bool_decide (o' = o)
                  | _ => false
                  end) tr).

Definition holders (o : IDeviceObject) (w : World) : nat :=
  length (List.filter
            (λ s, match s with
                  | Some Res => bool_decide (pObject Res = Some o)
                  | None => false
                  end) (slots w)).

Definition frees (tr : list Event) : nat :=
  length (List.filter (λ e, match e with EvFree _ _ => true | _ => false end) tr).

(** One iteration of the loop of [InitializeResources]. *)
Definition construct_Resource (pDescrSet Offset : Z) (Type_ : ResourceType)
    (res : Z) : M unit :=
  DescrSet ← load_DescriptorSet pDescrSet;
  a ← GetResource DescrSet (wrap32 (Offset + res));
  construct a (CellRes (mkResource Type_ None)).

End ShaderResourceCacheVk.

(** ** A concrete device, used to run the model *)

Module Example.

#[global] Instance sizes : ObjectSizes := {|
  sizeof_DescriptorSet := 24;
  sizeof_Resource := 16;
  sizeof_DescriptorSet_range := conj eq_refl eq_refl;
  sizeof_Resource_range := conj eq_refl eq_refl
|}.

Definition allocator : IMemoryAllocator := mkAllocator 1 4096.

(** A device whose buffers have no access flags yet and whose textures are
    in the undefined layout, and a default-constructed cache. *)
Definition fresh : World :=
  mkWorld empty_cache ∅
    (λ _, mkBuffer "B" 0) (λ _, mkTexture "T" VK_IMAGE_LAYOUT_UNDEFINED)
    [] [] [].

Definition run (m : M unit) (w : World) : World := final (m w).

(** Two sets, of two slots and of one slot. *)
Definition initialised : World :=
  run (InitializeSets allocator 2 [2; 1]) fresh.

(** The slots of the first set are uniform buffers, the slot of the second
    is a sampled image. *)
Definition typed : World :=
  run (InitializeResources 0 0 2 UniformBuffer;;
       InitializeResources 1 0 1 SampledImage) initialised.

(** Buffers 7 and 8 and a view of texture 3 are bound. *)
Definition bound : World :=
  run (SetResource 0 0 (Some (ObjBufferVk 7));;
       SetResource 0 1 (Some (ObjBufferVk 8));;
       SetResource 1 0 (Some (ObjTextureViewVk 3))) typed.

(** Buffer 7 is bound to both uniform-buffer slots. *)
Definition aliased : World :=
  run (SetResource 0 0 (Some (ObjBufferVk 7));;
       SetResource 0 1 (Some (ObjBufferVk 7));;
       SetResource 1 0 (Some (ObjTextureViewVk 3))) typed.

(** One set of two slots, a uniform buffer and a storage buffer, with
    buffer 7 bound to both. *)
Definition conflicting : World :=
  run (InitializeSets allocator 1 [2];;
       InitializeResources 0 0 1 UniformBuffer;;
       InitializeResources 0 1 1 StorageBuffer;;
       SetResource 0 0 (Some (ObjBufferVk 7));;
       SetResource 0 1 (Some (ObjBufferVk 7))) fresh.

(** One set of two slots, the second of a kind outside the nine. *)
Definition unclassified : World :=
  run (InitializeSets allocator 1 [2];;
       InitializeResources 0 0 1 AtomicCounter;;
       InitializeResources 0 1 1 (UnknownType 9)) fresh.

(** Set sizes whose sum does not fit in [Uint32]. *)
Definition overflowing : list Z := [2 ^ 31; 2 ^ 31].

(** The end-to-end scenario of the spec: one set of two slots, a uniform
    buffer bound to buffer 1, in no access state yet, and a sampled image
    bound to a view of texture 2, in the undefined layout. *)
Definition scenario : World :=
  run (InitializeSets allocator 1 [2];;
       InitializeResources 0 0 1 UniformBuffer;;
       InitializeResources 0 1 1 SampledImage;;
       SetResource 0 0 (Some (ObjBufferVk 1));;
       SetResource 0 1 (Some (ObjTextureViewVk 2))) fresh.

(** The bound cache after an apply pass: every resource is in the state its
    slot requires. *)
Definition settled : World := run (TransitionResources false) bound.



(** The typed cache with buffer 7 bound to its first slot and nothing bound
    to the two others. *)
Definition half_bound : World :=
  run (SetResource 0 0 (Some (ObjBufferVk 7))) typed.

(** Slots of [2^30] bytes, and five sets whose sizes add up to [2^34]. *)
Definition big_slots : ObjectSizes := {|
  sizeof_DescriptorSet := 24;
  sizeof_Resource := 2 ^ 30;
  sizeof_DescriptorSet_range := conj eq_refl eq_refl;
  sizeof_Resource_range := conj eq_refl eq_refl
|}.

Definition unnoticed : list Z :=
  [2 ^ 32 - 1; 2 ^ 32 - 1; 2 ^ 32 - 1; 2 ^ 32 - 1; 4].

End Example.

(** * Properties *)

Section Properties.

Context `{ObjectSizes}.

(** ** The monad and its loops *)

Ltac run_monad :=
  repeat (unfold mbind, M_bind, mret, M_ret, get, modify, modify_cache, abort,
            VERIFY, UNEXPECTED, LOG_ERROR_MESSAGE, construct,
            GetAccessFlags, GetBufferName, GetLayout, GetTextureName,
            BufferMemoryBarrier, TransitionImageLayout, report, request in *;
          cbn in *).

Lemma for_fold_app {A B} (l1 l2 : list A) (body : A → B → M B) b w :
  for_fold (l1 ++ l2) body b w
  = (b' ← for_fold l1 body b; for_fold l2 body b') w.
Proof.
  revert b w. induction l1 as [|x l1 IH]; intros b w; [done|].
  simpl. unfold mbind, M_bind. destruct (body x b w) as [b' w'|e w']; [|done].
  apply IH.
Qed.

Lemma for_each_cons {A} (x : A) l (body : A → M unit) w :
  for_each (x :: l) body w = (body x;; for_each l body) w.
Proof.
  unfold for_each. simpl. unfold mbind, M_bind.
  by destruct (body x w) as [[] w'|e w'].
Qed.

Lemma for_each_app {A} (l1 l2 : list A) (body : A → M unit) w :
  for_each (l1 ++ l2) body w = (for_each l1 body;; for_each l2 body) w.
Proof.
  unfold for_each. rewrite for_fold_app. unfold mbind, M_bind.
  by destruct (for_fold l1 _ tt w) as [[] w'|e w'].
Qed.

Lemma for_each_ext {A} (l : list A) (f g : A → M unit) w :
  (∀ x w', x ∈ l → f x w' = g x w') → for_each l f w = for_each l g w.
Proof.
  revert w. induction l as [|x l IH]; intros w Hfg; [done|].
  rewrite !for_each_cons. unfold mbind, M_bind.
  rewrite Hfg by left. destruct (g x w) as [[] w'|e w']; [|done].
  apply IH. intros y w'' Hy. apply Hfg. by right.
Qed.

(** A loop whose body keeps an invariant keeps it, whatever the outcome. *)
Lemma for_each_invariant {A} (P : World → Prop) (l : list A) (body : A → M unit) w :
  (∀ x w', x ∈ l → P w' → P (final (body x w'))) →
  P w → P (final (for_each l body w)).
Proof.
  revert w. induction l as [|x l IH]; intros w Hbody Hw; [done|].
  rewrite for_each_cons. unfold mbind, M_bind.
  pose proof (Hbody x w ltac:(left) Hw) as Hx.
  destruct (body x w) as [[] w'|e w']; [|done].
  apply IH; [|done]. intros y w'' Hy. apply Hbody. by right.
Qed.

(** ** The loop body of the transition pass against the table *)

Lemma TransitionResource_table VerifyOnly Res w :
  TransitionResource VerifyOnly Res w
  = match demand Res with
    | Faulty f => Abort f w
    | RequiresNothing => Done tt w
    | Requires r state =>
        if native_state w r =? state then Done tt w
        else if VerifyOnly then report r w else request r state w
    end.
Proof.
  destruct Res as [kind [[b|b|t|s]|]]; destruct kind; try reflexivity;
    cbn; run_monad;
    match goal with |- context [?a =? ?b] => destruct (a =? b) end;
    cbn; try reflexivity; destruct VerifyOnly; reflexivity.
Qed.

(** ** The pass as a loop over the slots *)

Lemma for_each_fmap {A B} (f : A → B) (l : list A) (body : B → M unit) w :
  for_each (f <$> l) body w = for_each l (λ x, body (f x)) w.
Proof.
  revert w. induction l as [|x l IH]; intros w; [done|].
  rewrite fmap_cons, !for_each_cons. unfold mbind, M_bind.
  destruct (body (f x) w) as [[] w'|e w']; [apply IH|done].
Qed.

(** Two loop bodies that agree on the worlds an invariant describes, and
    keep it, run alike from such a world. *)
Lemma for_each_ext_inv {A} (P : World → Prop) (l : list A) (f g : A → M unit) w :
  (∀ x w', x ∈ l → P w' → f x w' = g x w' ∧ P (final (g x w'))) →
  P w → for_each l f w = for_each l g w.
Proof.
  revert w. induction l as [|x l IH]; intros w Hfg Hw; [done|].
  rewrite !for_each_cons. unfold mbind, M_bind.
  destruct (Hfg x w ltac:(left) Hw) as [-> HP].
  destruct (g x w) as [[] w'|e w']; [|done].
  apply IH; [|done]. intros y w'' Hy. apply Hfg. by right.
Qed.

(** What a visit can change: the native state of the one resource the slot
    depends on, the command stream and the log. *)
Lemma visit_slot_table VerifyOnly o w :
  visit_slot VerifyOnly o w
  = match o with
    | None => Abort UninitializedRead w
    | Some Res =>
        match demand Res with
        | Faulty f => Abort f w
        | RequiresNothing => Done tt w
        | Requires r state =>
            if native_state w r =? state then Done tt w
            else if VerifyOnly then report r w else request r state w
        end
    end.
Proof. destruct o as [Res|]; [apply TransitionResource_table|done]. Qed.

Lemma request_frame r state w :
  ∃ w', request r state w = Done tt w'
        ∧ Cache w' = Cache w ∧ Heap w' = Heap w ∧ Trace w' = Trace w
        ∧ Log w' = Log w
        ∧ length (Commands w') = S (length (Commands w))
        ∧ native_state w' r = state
        ∧ ∀ r', r' ≠ r → native_state w' r' = native_state w r'.
Proof.
  destruct r as [b|t]; (eexists; split; [reflexivity|]); cbn;
    rewrite length_app, fn_lookup_insert; cbn;
    (repeat split; [lia|]);
    intros [b'|t'] Hne; cbn; try done;
    rewrite fn_lookup_insert_ne; congruence.
Qed.

Lemma visit_slot_frame VerifyOnly o w :
  let w' := final (visit_slot VerifyOnly o w) in
  Cache w' = Cache w ∧ Heap w' = Heap w ∧ Trace w' = Trace w.
Proof.
  rewrite visit_slot_table. destruct o as [Res|]; [|done].
  destruct (demand Res) as [r state| |f]; try done.
  destruct (native_state w r =? state); [done|].
  destruct VerifyOnly; [done|].
  destruct (request_frame r state w) as (w' & -> & ? & ? & ? & _). done.
Qed.

Lemma slot_at_frame w w' k :
  Cache w' = Cache w → Heap w' = Heap w → slot_at w' k = slot_at w k.
Proof. intros Hc Hh. unfold slot_at. by rewrite Hc, Hh. Qed.

Lemma visit_visit_slot VerifyOnly w0 w k :
  Cache w = Cache w0 → Heap w = Heap w0 →
  visit VerifyOnly (pResources_of (Cache w0)) k w
  = visit_slot VerifyOnly (slot_at w0 k) w.
Proof.
  intros Hc Hh. unfold visit, load_Resource, slot_at, Resource_addr.
  run_monad. rewrite Hh.
  by destruct (Heap w0 !! _) as [[d|r]|].
Qed.

Lemma loop_as_slots VerifyOnly w0 l w :
  Cache w = Cache w0 → Heap w = Heap w0 →
  for_each l (visit VerifyOnly (pResources_of (Cache w0))) w
  = for_each (slot_at w0 <$> l) (visit_slot VerifyOnly) w.
Proof.
  intros Hc Hh. rewrite for_each_fmap.
  apply (for_each_ext_inv (λ w', Cache w' = Cache w0 ∧ Heap w' = Heap w0));
    [|done].
  intros k w' _ [Hc' Hh']. split; [by apply visit_visit_slot|].
  destruct (visit_slot_frame VerifyOnly (slot_at w0 k) w') as (-> & -> & _).
  done.
Qed.

Lemma TransitionResources_slots VerifyOnly w :
  TransitionResources VerifyOnly w = for_each (slots w) (visit_slot VerifyOnly) w.
Proof. unfold TransitionResources. run_monad. by apply loop_as_slots. Qed.

Lemma TransitionResources_upto_slots VerifyOnly k w :
  TransitionResources_upto VerifyOnly k w
  = for_each (slot_at w <$> seqZ 0 k) (visit_slot VerifyOnly) w.
Proof. unfold TransitionResources_upto. run_monad. by apply loop_as_slots. Qed.

Lemma pass_frame VerifyOnly l w :
  let w' := final (for_each l (visit_slot VerifyOnly) w) in
  Cache w' = Cache w ∧ Heap w' = Heap w ∧ Trace w' = Trace w.
Proof.
  apply (for_each_invariant
           (λ w', Cache w' = Cache w ∧ Heap w' = Heap w ∧ Trace w' = Trace w));
    [|done].
  intros o w' _ (Hc & Hh & Ht).
  destruct (visit_slot_frame VerifyOnly o w') as (-> & -> & ->). done.
Qed.

(** ** Verify mode *)

Lemma verify_pass l w0 ms :
  ∃ msgs,
    final (for_each l (visit_slot true) (with_Log (Log w0 ++ ms) w0))
    = with_Log (Log w0 ++ ms ++ msgs) w0
    ∧ Forall (λ m, ∃ r state, (r, state) ∈ omap slot_demand l
                              ∧ native_state w0 r ≠ state
                              ∧ m = mismatch_message w0 r) msgs.
Proof.
  revert ms. induction l as [|o l IH]; intros ms.
  { exists []. by rewrite app_nil_r. }
  rewrite for_each_cons. unfold mbind, M_bind. rewrite visit_slot_table.
  assert (Hweak : ∀ r0 s0 msgs,
    Forall (λ m, ∃ r state, (r, state) ∈ omap slot_demand l
               ∧ native_state w0 r ≠ state ∧ m = mismatch_message w0 r) msgs →
    Forall (λ m, ∃ r state, (r, state) ∈ (r0, s0) :: omap slot_demand l
               ∧ native_state w0 r ≠ state ∧ m = mismatch_message w0 r) msgs).
  { intros r0 s0 msgs Hms. eapply Forall_impl; [exact Hms|].
    intros m (r & s & Hin & ? & ?).
    exists r, s. split; [by right|done]. }
  destruct o as [Res|]; [|exists []; by rewrite app_nil_r].
  cbn [omap list_omap slot_demand].
  destruct (demand Res) as [r state| |f].
  - change (native_state (with_Log (Log w0 ++ ms) w0) r) with (native_state w0 r).
    destruct (native_state w0 r =? state) eqn:Heq.
    + destruct (IH ms) as (msgs & -> & Hall). exists msgs. split; [done|].
      by apply Hweak.
    + unfold report. cbn [Log with_Log].
      change (mismatch_message (with_Log (Log w0 ++ ms) w0) r)
        with (mismatch_message w0 r).
      change (with_Log ((Log w0 ++ ms) ++ [mismatch_message w0 r])
                (with_Log (Log w0 ++ ms) w0))
        with (with_Log ((Log w0 ++ ms) ++ [mismatch_message w0 r]) w0).
      rewrite <- (assoc_L (++)).
      destruct (IH (ms ++ [mismatch_message w0 r])) as (msgs & -> & Hall).
      exists (mismatch_message w0 r :: msgs). split.
      * by rewrite <- (assoc_L (++)).
      * constructor; [|by apply Hweak].
        exists r, state. split; [by left|]. split; [|done].
        by apply Z.eqb_neq.
  - apply IH.
  - exists []. by rewrite app_nil_r.
Qed.

(** C4: a verify pass changes nothing but the log.  Whatever the outcome,
    the world it leaves is the one it started from with diagnostics
    appended to the log: the cache, the block, the access flags of every
    buffer, the layout of every texture and the command stream are
    unchanged.  Each diagnostic names a resource that some slot depends on
    and whose current state differs from the one that slot requires. *)
Theorem verify_only_appends_diagnostics (w : World) :
  ∃ msgs,
    final (TransitionResources true w) = with_Log (Log w ++ msgs) w
    ∧ Forall (λ m, ∃ r state, (r, state) ∈ demands w
                              ∧ native_state w r ≠ state
                              ∧ m = mismatch_message w r) msgs.
Proof.
  rewrite TransitionResources_slots.
  destruct (verify_pass (slots w) w []) as (msgs & Hfin & Hall).
  exists msgs. split; [|done].
  rewrite app_nil_r in Hfin.
  replace (with_Log (Log w) w) with w in Hfin by (by destruct w).
  done.
Qed.

(** ** The table *)

(** C1: the loop body of the pass is the table of the spec.  The required
    state is a function of the slot's kind ([spec_required_state]); it is
    compared with the access flags of the bound buffer, of the buffer under
    the bound buffer view, or with the layout of the texture under the
    bound texture view; a mismatch is reported in verify mode and requested
    in apply mode.  The pass runs this body on every slot of the flat
    array in order, and does nothing on an atomic counter or a separate
    sampler. *)
Theorem transition_follows_table (VerifyOnly : bool) (w : World) :
  (∀ Res w', TransitionResource VerifyOnly Res w'
             = spec_TransitionResource VerifyOnly Res w')
  ∧ TransitionResources VerifyOnly w
    = for_each (slots w)
        (λ o, match o with
              | Some Res => spec_TransitionResource VerifyOnly Res
              | None => abort UninitializedRead
              end) w
  ∧ (∀ pObj w', TransitionResource VerifyOnly (mkResource AtomicCounter pObj) w'
                = Done tt w')
  ∧ (∀ pObj w', TransitionResource VerifyOnly (mkResource SeparateSampler pObj) w'
                = Done tt w').
Proof.
  assert (Hbody : ∀ Res w', TransitionResource VerifyOnly Res w'
                            = spec_TransitionResource VerifyOnly Res w').
  { intros Res w'. rewrite TransitionResource_table. unfold spec_TransitionResource.
    destruct (demand Res) as [r state| |f]; try done.
    unfold mbind, M_bind, get, mret, M_ret.
    destruct (native_state w' r =? state); [done|]. by destruct VerifyOnly. }
  split; [done|]. split; [|done].
  rewrite TransitionResources_slots. apply for_each_ext.
  intros [Res|] w' _; [apply Hbody|done].
Qed.

(** ** Faults of the pass *)

Lemma pass_abort_inv VerifyOnly l w f w' :
  for_each l (visit_slot VerifyOnly) w = Abort f w' →
  ∃ o, o ∈ l ∧ visit_slot VerifyOnly o w' = Abort f w'.
Proof.
  revert w. induction l as [|o l IH]; intros w; [done|].
  rewrite for_each_cons. unfold mbind, M_bind.
  destruct (visit_slot VerifyOnly o w) as [[] w1|e w1] eqn:Ho.
  - intros Hl. destruct (IH _ Hl) as (o' & Hin & Ho'). exists o'.
    split; [by right|done].
  - intros [= -> ->]. exists o. split; [by left|].
    rewrite visit_slot_table in Ho |- *.
    destruct o as [Res|]; [|by injection Ho as -> ->].
    destruct (demand Res) as [r state| |f']; try done.
    + destruct (native_state w r =? state); [done|].
      destruct VerifyOnly; [done|].
      by destruct (request_frame r state w) as (w2 & Hreq & _); rewrite Hreq in Ho.
    + by injection Ho as -> ->.
Qed.

Lemma pass_faulty_slot VerifyOnly l1 o l2 w e :
  (∀ w', visit_slot VerifyOnly o w' = Abort e w') →
  completed (for_each (l1 ++ o :: l2) (visit_slot VerifyOnly) w) = false
  ∧ ∀ w1, for_each l1 (visit_slot VerifyOnly) w = Done tt w1 →
          for_each (l1 ++ o :: l2) (visit_slot VerifyOnly) w = Abort e w1.
Proof.
  intros Ho. rewrite for_each_app. unfold mbind, M_bind.
  destruct (for_each l1 _ w) as [[] w1|e1 w1].
  - rewrite for_each_cons. unfold mbind, M_bind. rewrite Ho.
    split; [done|]. by intros ? [= ->].
  - done.
Qed.

(** C9: a slot whose kind is none of the nine classified kinds is never
    skipped.  The loop body ends with the fatal condition
    [UnexpectedResourceKind]; a pass over a cache that holds such a slot
    does not complete, and when it reaches the slot it ends with that
    condition, in the world it reached. *)
Theorem unexpected_kind_is_fatal (VerifyOnly : bool) (w : World) (k : Z)
    (tag : N) (pObj : option IDeviceObject) :
  0 ≤ k < m_TotalResources (Cache w) →
  slot_at w k = Some (mkResource (UnknownType tag) pObj) →
  (∀ w', TransitionResource VerifyOnly (mkResource (UnknownType tag) pObj) w'
         = Abort UnexpectedResourceKind w')
  ∧ completed (TransitionResources VerifyOnly w) = false
  ∧ ∀ w1, TransitionResources_upto VerifyOnly k w = Done tt w1 →
          TransitionResources VerifyOnly w = Abort UnexpectedResourceKind w1.
Proof.
  intros Hk Hslot. split; [done|].
  rewrite TransitionResources_slots, TransitionResources_upto_slots.
  unfold slots.
  replace (m_TotalResources (Cache w))
    with (k + (1 + (m_TotalResources (Cache w) - k - 1))) by lia.
  rewrite seqZ_app, (seqZ_cons (0 + k)), fmap_app, fmap_cons by lia.
  rewrite Z.add_0_l, Hslot.
  by apply pass_faulty_slot.
Qed.

Lemma all_bound_no_null VerifyOnly o w :
  bound o = true → ∀ w', visit_slot VerifyOnly o w ≠ Abort NullDereference w'.
Proof.
  intros Hb w'. rewrite visit_slot_table.
  destruct o as [[kind pObj]|]; [|done].
  unfold bound, needs_object, demand in *. cbn in *.
  destruct (spec_required_state kind) as [[flags|flags|layout|]|];
    destruct pObj as [[b|b|t|s]|]; try done;
    match goal with
    | |- context [?a =? ?b] => destruct (a =? b); [done|]
    end;
    destruct VerifyOnly; try done;
    match goal with
    | |- request ?r ?s ?w ≠ _ =>
        by destruct (request_frame r s w) as (w2 & -> & _)
    end.
Qed.

Lemma unbound_visit VerifyOnly Res w :
  needs_object (Type_ Res) = true → pObject Res = None →
  visit_slot VerifyOnly (Some Res) w = Abort NullDereference w.
Proof.
  intros Hneeds Hnone. rewrite visit_slot_table.
  destruct Res as [kind pObj]. cbn in Hneeds, Hnone. subst pObj.
  unfold needs_object, demand in *. cbn.
  by destruct (spec_required_state kind) as [[flags|flags|layout|]|].
Qed.

Lemma in_order_bound_completes VerifyOnly o w :
  in_order o = true → bound o = true →
  completed (visit_slot VerifyOnly o w) = true.
Proof.
  intros Hord Hb. rewrite visit_slot_table.
  destruct o as [[kind pObj]|]; [|done].
  unfold in_order, expects, bound, needs_object, demand in *. cbn in *.
  destruct (spec_required_state kind) as [[flags|flags|layout|]|];
    destruct pObj as [[b|b|t|s]|]; try done;
    match goal with
    | |- context [?a =? ?b] => destruct (a =? b); [done|]
    end;
    destruct VerifyOnly; try done;
    match goal with
    | |- context [request ?r ?s ?w] =>
        by destruct (request_frame r s w) as (w2 & -> & _)
    end.
Qed.

(** Over slots in order, the pass completes when every slot that needs an
    object holds one, and ends in a null dereference when one does not. *)
Lemma pass_in_order VerifyOnly (l : list (option Resource)) w :
  forallb in_order l = true →
  if forallb bound l
  then completed (for_each l (visit_slot VerifyOnly) w) = true
  else fault_of (for_each l (visit_slot VerifyOnly) w) = Some NullDereference.
Proof.
  revert w. induction l as [|o l IH]; intros w Hord; [done|].
  cbn [forallb] in Hord |- *. apply andb_prop in Hord as [Ho Hl].
  rewrite for_each_cons. unfold mbind, M_bind.
  destruct (bound o) eqn:Hb; cbn [andb].
  - pose proof (in_order_bound_completes VerifyOnly o w Ho Hb) as Hdone.
    destruct (visit_slot VerifyOnly o w) as [[] w1|e w1]; [|done].
    by apply IH.
  - destruct o as [Res|]; [|done].
    unfold bound in Hb.
    destruct (needs_object (Type_ Res)) eqn:Hneeds; [|done].
    destruct (pObject Res) eqn:Hnone; [done|].
    by rewrite unbound_visit.
Qed.

(** C8: the pass dereferences the bound object of every buffer,
    texel-buffer and image slot without a guard.  When every such slot
    holds a bound object, no pass ends in a null dereference, and over a
    cache whose slots are in order (constructed, of a classified kind, bound
    to nothing or to an object of the class of the kind) the pass completes
    in either mode: every dereference is defined.  With an empty binding at
    such a slot, the loop body is a null dereference in either mode,
    whatever the state of the device; a pass that reaches the slot ends
    there with it, in the world it had reached, with neither a report nor a
    request for the slot; and over a cache whose slots are in order, the
    pass completes only if every such slot holds a bound object, and ends in
    the null dereference if one does not. *)
Theorem unbound_slot_is_unguarded (VerifyOnly : bool) (w : World) :
  (all_bound w = true →
     (∀ w', TransitionResources VerifyOnly w ≠ Abort NullDereference w')
     ∧ (all_in_order w = true →
        completed (TransitionResources VerifyOnly w) = true))
  ∧ (∀ kind w', needs_object kind = true →
                TransitionResource VerifyOnly (mkResource kind None) w'
                = Abort NullDereference w')
  ∧ (∀ k Res w1,
       0 ≤ k < m_TotalResources (Cache w) →
       slot_at w k = Some Res →
       needs_object (Type_ Res) = true → pObject Res = None →
       TransitionResources_upto VerifyOnly k w = Done tt w1 →
       TransitionResources VerifyOnly w = Abort NullDereference w1)
  ∧ (all_in_order w = true →
       (completed (TransitionResources VerifyOnly w) = true ↔ all_bound w = true)
       ∧ (all_bound w = false →
          fault_of (TransitionResources VerifyOnly w) = Some NullDereference)).
Proof.
  assert (Hpass : all_in_order w = true →
    if all_bound w
    then completed (TransitionResources VerifyOnly w) = true
    else fault_of (TransitionResources VerifyOnly w) = Some NullDereference).
  { intros Hord. rewrite TransitionResources_slots. by apply pass_in_order. }
  split; [|split; [|split]].
  - intros Hall. split.
    + intros w' Habort. rewrite TransitionResources_slots in Habort.
      apply pass_abort_inv in Habort as (o & Hin & Ho).
      unfold all_bound in Hall. rewrite forallb_forall in Hall.
      apply list_elem_of_In in Hin. specialize (Hall o Hin).
      by eapply (all_bound_no_null VerifyOnly o w').
    + intros Hord. specialize (Hpass Hord). by rewrite Hall in Hpass.
  - intros kind w' Hneeds.
    by apply (unbound_visit VerifyOnly (mkResource kind None) w').
  - intros k Res w1 Hk Hslot Hneeds Hnone.
    rewrite TransitionResources_slots, TransitionResources_upto_slots.
    unfold slots.
    replace (m_TotalResources (Cache w))
      with (k + (1 + (m_TotalResources (Cache w) - k - 1))) by lia.
    rewrite seqZ_app, (seqZ_cons (0 + k)), fmap_app, fmap_cons by lia.
    rewrite Z.add_0_l, Hslot.
    apply pass_faulty_slot. intros w'. by apply unbound_visit.
  - intros Hord. specialize (Hpass Hord).
    destruct (all_bound w).
    + split; [by split|done].
    + split; [|done]. split; [|done].
      intros Hdone. by destruct (TransitionResources VerifyOnly w).
Qed.

(** ** Verify mode against apply mode *)

Lemma verify_pass_log l w :
  ∃ msgs, final (for_each l (visit_slot true) w) = with_Log (Log w ++ msgs) w.
Proof.
  destruct (verify_pass l w []) as (msgs & Hfin & _). exists msgs.
  rewrite app_nil_r in Hfin.
  by replace (with_Log (Log w) w) with w in Hfin by (by destruct w).
Qed.

(** Whether a pass completes depends on the slots alone, not on the mode
    or the state of the device. *)
Lemma pass_completed_sync v1 v2 l w1 w2 :
  completed (for_each l (visit_slot v1) w1)
  = completed (for_each l (visit_slot v2) w2).
Proof.
  revert w1 w2. induction l as [|o l IH]; intros w1 w2; [done|].
  rewrite !for_each_cons. unfold mbind, M_bind. rewrite !visit_slot_table.
  destruct o as [Res|]; [|done].
  destruct (demand Res) as [r state| |f]; [|apply IH|done].
  assert (Hdone : ∀ (v : bool) w, ∃ w',
    (if native_state w r =? state then Done tt w
     else if v then report r w else request r state w) = Done tt w').
  { intros v w. destruct (native_state w r =? state); [by eexists|].
    destruct v; [by eexists|].
    destruct (request_frame r state w) as (w' & -> & _). by eexists. }
  destruct (Hdone v1 w1) as [w1' ->], (Hdone v2 w2) as [w2' ->]. apply IH.
Qed.

(** An apply pass leaves alone every resource no visited slot depends on. *)
Lemma apply_pass_untouched (l : list (option Resource)) w (r : NativeResource) :
  r ∉ fst <$> omap slot_demand l →
  native_state (final (for_each l (visit_slot false) w)) r = native_state w r.
Proof.
  revert w. induction l as [|o l IH]; intros w Hr; [done|].
  rewrite for_each_cons. unfold mbind, M_bind. rewrite visit_slot_table.
  destruct o as [Res|]; [|done]. cbn [omap list_omap slot_demand] in Hr.
  destruct (demand Res) as [r0 state| |f]; [|by apply IH|done].
  rewrite fmap_cons, not_elem_of_cons in Hr. destruct Hr as [Hne Hr].
  destruct (native_state w r0 =? state); [by apply IH|].
  destruct (request_frame r0 state w) as (w' & -> & _ & _ & _ & _ & _ & _ & Hother).
  rewrite IH by done. by apply Hother.
Qed.

Lemma slots_split w k :
  0 ≤ k < m_TotalResources (Cache w) →
  slots w = (slot_at w <$> seqZ 0 k) ++ slot_at w k
            :: (slot_at w <$> seqZ (k + 1) (m_TotalResources (Cache w) - k - 1)).
Proof.
  intros Hk. unfold slots.
  replace (m_TotalResources (Cache w))
    with (k + (1 + (m_TotalResources (Cache w) - k - 1))) at 1 by lia.
  rewrite seqZ_app, (seqZ_cons (0 + k)), fmap_app, fmap_cons by lia.
  rewrite Z.add_0_l.
  replace (Z.succ k) with (k + 1) by lia.
  by replace (Z.pred (1 + (m_TotalResources (Cache w) - k - 1)))
    with (m_TotalResources (Cache w) - k - 1) by lia.
Qed.

(** C2, amended: when no buffer or texture is the underlying resource of
    two slots, verify mode and apply mode agree slot by slot: run from the
    same world, the verify pass reports a mismatch at a slot exactly when
    the apply pass emits a barrier or layout-transition request at that
    slot. *)
Theorem verify_apply_agree_without_aliasing (w : World) (k : Z) :
  no_aliasing w = true →
  0 ≤ k < m_TotalResources (Cache w) →
  reports_at w k = emits_at w k.
Proof.
  intros Hnd Hk. unfold no_aliasing in Hnd. apply bool_decide_eq_true in Hnd.
  unfold demands in Hnd. rewrite (slots_split w k Hk) in Hnd.
  rewrite omap_app, fmap_app in Hnd. apply NoDup_app in Hnd as (_ & Hfresh & _).
  unfold reports_at, emits_at, acts_at.
  rewrite !TransitionResources_upto_slots.
  set (l1 := slot_at w <$> seqZ 0 k) in *.
  pose proof (pass_completed_sync true false l1 w w) as Hsync.
  destruct (verify_pass_log l1 w) as [msgs Hv].
  pose proof (apply_pass_untouched l1 w) as Ha.
  destruct (pass_frame true l1 w) as (Hcv & Hhv & _).
  destruct (pass_frame false l1 w) as (Hca & Hha & _).
  destruct (for_each l1 (visit_slot true) w) as [[] wv|ev wv];
    destruct (for_each l1 (visit_slot false) w) as [[] wa|ea wa];
    try done.
  cbn [final] in *. subst wv.
  rewrite !visit_visit_slot by done. rewrite !visit_slot_table.
  destruct (slot_at w k) as [Res|] eqn:Hslot; [|done].
  cbn [omap list_omap slot_demand] in Hfresh.
  destruct (demand Res) as [r state| |f].
  - change (native_state (with_Log (Log w ++ msgs) w) r) with (native_state w r).
    rewrite Ha.
    + destruct (native_state w r =? state).
      * by rewrite !Nat.eqb_refl.
      * destruct (request_frame r state wa) as (w' & -> & _ & _ & _ & _ & Hlen & _).
        unfold report. cbn [final Log with_Log]. rewrite Hlen, length_app.
        cbn [length].
        assert (Hneq : ∀ n m : nat, n ≠ m → negb (n =? m)%nat = true).
        { intros n m Hnm. by rewrite (proj2 (Nat.eqb_neq n m) Hnm). }
        rewrite !Hneq by lia. done.
    + intros Hin. apply (Hfresh r Hin). rewrite fmap_cons. by left.
  - by rewrite !Nat.eqb_refl.
  - done.
Qed.

(** ** Repeating the apply pass *)

Lemma slots_frame w w' :
  Cache w' = Cache w → Heap w' = Heap w → slots w' = slots w.
Proof.
  intros Hc Hh. unfold slots. rewrite Hc.
  apply list_fmap_ext. intros i k _. by apply slot_at_frame.
Qed.

(** After an apply pass that completes, every demand is met, provided
    slots that share a resource agree on its state. *)
Lemma apply_pass_satisfies (l : list (option Resource)) ds w w1 :
  (∀ d1 d2, d1 ∈ ds ++ omap slot_demand l → d2 ∈ ds ++ omap slot_demand l →
            d1.1 = d2.1 → d1.2 = d2.2) →
  Forall (λ d, native_state w d.1 = d.2) ds →
  for_each l (visit_slot false) w = Done tt w1 →
  Forall (λ d, native_state w1 d.1 = d.2) (ds ++ omap slot_demand l).
Proof.
  revert ds w. induction l as [|o l IH]; intros ds w Hcons Hds.
  { intros [= ->]. by rewrite app_nil_r. }
  rewrite for_each_cons. unfold mbind, M_bind. rewrite visit_slot_table.
  destruct o as [Res|]; [|done]. cbn [omap list_omap slot_demand] in *.
  destruct (demand Res) as [r state| |f]; [|by apply IH|done].
  replace (ds ++ (r, state) :: omap slot_demand l)
    with ((ds ++ [(r, state)]) ++ omap slot_demand l) in *
    by (by rewrite <- (assoc_L (++))).
  destruct (native_state w r =? state) eqn:Heq.
  - apply IH; [done|]. apply Forall_app. split; [done|].
    constructor; [|done]. by apply Z.eqb_eq.
  - destruct (request_frame r state w) as (w' & -> & _ & _ & _ & _ & _ & Hr & Hother).
    apply IH; [done|]. apply Forall_app. split.
    + apply Forall_forall. intros d Hd.
      destruct (decide (d.1 = r)) as [Hdr|Hdr].
      * rewrite Hdr, Hr. symmetry. apply (Hcons d (r, state)); [| |done].
        -- apply elem_of_app. left. apply elem_of_app. by left.
        -- apply elem_of_app. left. apply elem_of_app. right. by left.
      * rewrite Hother by done. by apply (proj1 (Forall_forall _ _) Hds).
    + by constructor.
Qed.

(** A pass over slots whose demands are all met changes nothing. *)
Lemma satisfied_pass_noop (l : list (option Resource)) w :
  Forall (λ d, native_state w d.1 = d.2) (omap slot_demand l) →
  final (for_each l (visit_slot false) w) = w.
Proof.
  induction l as [|o l IH]; intros Hsat; [done|].
  rewrite for_each_cons. unfold mbind, M_bind. rewrite visit_slot_table.
  destruct o as [Res|]; [|done]. cbn [omap list_omap slot_demand] in Hsat.
  destruct (demand Res) as [r state| |f]; [|by apply IH|done].
  apply Forall_cons in Hsat as [Hr Hsat]. cbn in Hr.
  rewrite (proj2 (Z.eqb_eq _ _) Hr). by apply IH.
Qed.

Lemma consistent_demands_spec w :
  consistent_demands w = true →
  ∀ d1 d2, d1 ∈ demands w → d2 ∈ demands w → d1.1 = d2.1 → d1.2 = d2.2.
Proof.
  unfold consistent_demands. rewrite forallb_forall.
  intros Hall d1 d2 Hd1 Hd2 Heq.
  apply list_elem_of_In in Hd1, Hd2.
  specialize (Hall d1 Hd1). rewrite forallb_forall in Hall.
  specialize (Hall d2 Hd2). unfold agree in Hall.
  destruct (decide (d1.1 = d2.1)); [by apply Z.eqb_eq|done].
Qed.

(** C10, amended: the apply pass is idempotent when slots that share an
    underlying buffer or texture require the same state of it.  After an
    apply pass that completes, a second apply pass with nothing changed in
    between completes in the same world: it emits no barrier and no
    layout-transition request. *)
Theorem apply_twice_emits_nothing (w w1 : World) :
  consistent_demands w = true →
  TransitionResources false w = Done tt w1 →
  TransitionResources false w1 = Done tt w1
  ∧ Commands (final (TransitionResources false w1)) = Commands w1.
Proof.
  intros Hcons Hfirst.
  assert (Hsecond : TransitionResources false w1 = Done tt w1); [|by rewrite Hsecond].
  rewrite TransitionResources_slots in Hfirst |- *.
  destruct (pass_frame false (slots w) w) as (Hc & Hh & _).
  rewrite Hfirst in Hc, Hh. cbn [final] in Hc, Hh.
  rewrite (slots_frame w w1) by done.
  pose proof (apply_pass_satisfies (slots w) [] w w1
                (consistent_demands_spec w Hcons) (Forall_nil_2 _) Hfirst) as Hsat.
  pose proof (satisfied_pass_noop (slots w) w1 Hsat) as Hnoop.
  pose proof (pass_completed_sync false false (slots w) w1 w) as Hsync.
  rewrite Hfirst in Hsync.
  destruct (for_each (slots w) (visit_slot false) w1) as [[] w2|e w2]; [|done].
  cbn in Hnoop. by subst w2.
Qed.

(** ** [InitializeSets] *)

Lemma with_Cache_id w : with_Cache (Cache w) w = w.
Proof. by destruct w. Qed.

Lemma with_Heap_id w : with_Heap (Heap w) w = w.
Proof. by destruct w. Qed.

Lemma array_read_middle (pre l : list Z) s w :
  array_read (pre ++ s :: l) (Z.of_nat (length pre)) w = Done s w.
Proof.
  unfold array_read. rewrite Nat2Z.id, list_lookup_middle by done. done.
Qed.

Lemma seqZ_length_cons {A} (pre : list A) (x : A) (l : list A) :
  seqZ (Z.of_nat (length pre)) (Z.of_nat (length (x :: l)))
  = Z.of_nat (length pre)
    :: seqZ (Z.of_nat (length (pre ++ [x]))) (Z.of_nat (length l)).
Proof.
  rewrite seqZ_cons by (cbn [length]; lia). f_equal.
  rewrite length_app. cbn [length]. f_equal; lia.
Qed.

Lemma wrap32_add_l x s : wrap32 (wrap32 x + s) = wrap32 (x + s).
Proof. unfold wrap32. by rewrite Zplus_mod_idemp_l. Qed.

(** The first loop: [m_TotalResources] accumulates the set sizes modulo
    [2^32]. *)
Lemma count_loop (l pre : list Z) x w :
  m_TotalResources (Cache w) = wrap32 x →
  for_each (seqZ (Z.of_nat (length pre)) (Z.of_nat (length l)))
    (λ t, s ← array_read (pre ++ l) t;
          modify_cache (λ c, set_TotalResources (wrap32 (m_TotalResources c + s)) c)) w
  = Done tt (with_Cache (set_TotalResources (wrap32 (x + Zsum l)) (Cache w)) w).
Proof.
  revert pre x w. induction l as [|s l IH]; intros pre x w Hx.
  - cbn. rewrite Z.add_0_r, <- Hx.
    replace (set_TotalResources (m_TotalResources (Cache w)) (Cache w))
      with (Cache w) by (by destruct (Cache w)).
    by rewrite with_Cache_id.
  - rewrite seqZ_length_cons, for_each_cons. unfold mbind at 1, M_bind at 1.
    unfold mbind at 1, M_bind at 1. rewrite array_read_middle.
    unfold modify_cache at 1, modify at 1.
    replace (pre ++ s :: l) with ((pre ++ [s]) ++ l)
      by (by rewrite <- (assoc_L (++))).
    rewrite (IH (pre ++ [s]) (x + s)).
    + unfold with_Cache, set_TotalResources, Zsum. cbn.
      by rewrite (Z.add_assoc x s).
    + cbn. by rewrite Hx, wrap32_add_l.
Qed.

Lemma headers_from_length cur l : length (headers_from cur l) = length l.
Proof. revert cur. induction l as [|s l IH]; intros cur; cbn; [done|by rewrite IH]. Qed.

(** The second loop: the headers are constructed in order and the cursor
    advances by each set's slots. *)
Lemma lay_loop (l pre : list Z) cur w :
  m_NumSets (Cache w) = Z.of_nat (length (pre ++ l)) →
  for_fold (seqZ (Z.of_nat (length pre)) (Z.of_nat (length l)))
    (λ t pCurrResPtr,
       s ← array_read (pre ++ l) t;
       a ← GetDescriptorSet t;
       (construct a (CellSet (mkDescriptorSet s (if 0 <? s then pCurrResPtr else 0)));;
        mret (pCurrResPtr + s * sizeof_Resource))) cur w
  = Done (cur + Zsum l * sizeof_Resource)
      (with_Heap (lay_headers (m_pMemory (Cache w)) (Z.of_nat (length pre))
                    (headers_from cur l) (Heap w)) w).
Proof.
  revert pre cur w. induction l as [|s l IH]; intros pre cur w HN.
  - cbn. by rewrite Z.add_0_r, with_Heap_id.
  - rewrite seqZ_length_cons. cbn [for_fold headers_from lay_headers].
    unfold mbind at 1, M_bind at 1. unfold mbind at 1, M_bind at 1.
    rewrite array_read_middle.
    unfold mbind at 1, M_bind at 1. unfold GetDescriptorSet at 1.
    unfold mbind at 1, M_bind at 1. unfold get at 1.
    assert (Hlt : (Z.of_nat (length pre) <? m_NumSets (Cache w)) = true).
    { apply Z.ltb_lt. rewrite HN, length_app. cbn [length]. lia. }
    rewrite Hlt. unfold mret at 1, M_ret at 1.
    unfold mbind at 1, M_bind at 1. unfold construct at 1, modify at 1.
    unfold mret at 1, M_ret at 1.
    replace (pre ++ s :: l) with ((pre ++ [s]) ++ l) in *
      by (by rewrite <- (assoc_L (++))).
    rewrite (IH (pre ++ [s])) by done.
    cbn [Zsum foldr]. f_equal; [unfold Zsum; lia|].
    cbn. rewrite length_app. cbn [length].
    by replace (Z.of_nat (length pre + 1)) with (Z.of_nat (length pre) + 1) by lia.
Qed.

Lemma Zsum_nonneg l : Forall is_Uint32 l → 0 ≤ Zsum l.
Proof.
  induction 1 as [|s l Hs _ IH]; [done|].
  unfold is_Uint32, Zsum in *. cbn [foldr]. lia.
Qed.

Lemma wrap32_small x : 0 ≤ x ≤ Uint32_MAX → wrap32 x = x.
Proof. intros Hx. apply Z.mod_small. unfold Uint32_MAX in Hx. lia. Qed.

Lemma MemorySize_exact n total :
  0 ≤ n ≤ Uint32_MAX → 0 ≤ total ≤ Uint32_MAX →
  wrap_size_t (n * sizeof_DescriptorSet + total * sizeof_Resource)
  = n * sizeof_DescriptorSet + total * sizeof_Resource
  ∧ 0 ≤ n * sizeof_DescriptorSet + total * sizeof_Resource.
Proof.
  intros Hn Ht. unfold Uint32_MAX in *.
  pose proof sizeof_DescriptorSet_range. pose proof sizeof_Resource_range.
  split; [apply Z.mod_small|]; nia.
Qed.

Lemma InitializeSets_fresh MemAllocator (SetSizes : list Z) w :
  is_nullptr (m_pAllocator (Cache w)) = true →
  m_pMemory (Cache w) = 0 →
  Forall is_Uint32 SetSizes →
  Z.of_nat (length SetSizes) ≤ Uint32_MAX →
  Zsum SetSizes ≤ Uint32_MAX →
  let NumSets := Z.of_nat (length SetSizes) in
  let MemorySize := NumSets * sizeof_DescriptorSet + Zsum SetSizes * sizeof_Resource in
  let p := Z.pos (NextBlock MemAllocator) in
  InitializeSets MemAllocator NumSets SetSizes w
  = Done tt
      (if 0 <? MemorySize then
         with_Heap (lay_headers p 0
                      (headers_from (p + NumSets * sizeof_DescriptorSet) SetSizes)
                      (Heap w))
           (with_Trace (Trace w ++ [EvAllocate (AllocatorId MemAllocator) MemorySize p])
              (with_Cache (mkCache (Some MemAllocator) p NumSets (Zsum SetSizes)) w))
       else with_Cache (mkCache (Some MemAllocator) 0 NumSets (Zsum SetSizes)) w).
Proof.
  intros Hnull Hmem Hsizes Hlen Hsum NumSets MemorySize p.
  pose proof (Zsum_nonneg _ Hsizes) as Hsum0.
  unfold InitializeSets.
  unfold mbind at 1, M_bind at 1, get at 1.
  unfold mbind at 1, M_bind at 1, VERIFY at 1.
  rewrite Hnull, Hmem. cbn [andb Z.eqb]. unfold mret at 1, M_ret at 1.
  do 3 (unfold mbind at 1, M_bind at 1, modify_cache at 1, modify at 1).
  unfold mbind at 1, M_bind at 1.
  match goal with
  | |- context [for_each _ _ ?W] =>
      pose proof (count_loop SetSizes [] 0 W eq_refl) as Hloop
  end.
  cbn [length app] in Hloop. change (Z.of_nat 0) with 0 in Hloop.
  fold NumSets in Hloop. rewrite Hloop.
  clear Hloop. rewrite Z.add_0_l, wrap32_small by lia.
  unfold mbind at 1, M_bind at 1, get at 1.
  cbn [Cache with_Cache set_TotalResources set_NumSets set_pAllocator
       m_TotalResources m_pAllocator m_pMemory m_NumSets].
  destruct (MemorySize_exact NumSets (Zsum SetSizes)) as [-> Hsize0];
    [unfold NumSets; lia|lia|].
  fold MemorySize in Hsize0 |- *.
  destruct (0 <? MemorySize) eqn:Hpos.
  2:{ unfold mret, M_ret, with_Cache, set_TotalResources, set_NumSets, set_pAllocator.
      cbn. by rewrite Hmem. }
  unfold mbind at 1, M_bind at 1, ALLOCATE at 1.
  unfold mbind at 1, M_bind at 1, modify at 1. unfold mret at 1, M_ret at 1.
  fold p.
  unfold mbind at 1, M_bind at 1, modify_cache at 1, modify at 1.
  unfold mbind at 1, M_bind at 1, get at 1.
  unfold mbind at 1, M_bind at 1.
  match goal with
  | |- context [for_fold _ _ ?c ?W] =>
      pose proof (lay_loop SetSizes [] c W eq_refl) as Hloop
  end.
  cbn [length app] in Hloop. change (Z.of_nat 0) with 0 in Hloop.
  fold NumSets in Hloop. rewrite Hloop.
  clear Hloop. unfold mbind at 1, M_bind at 1, get at 1. unfold VERIFY.
  cbn [Cache with_Heap with_Cache with_Trace set_pMemory set_TotalResources
       set_NumSets set_pAllocator m_pMemory m_NumSets].
  assert (Hend : ptr_eqb (p + NumSets * sizeof_DescriptorSet
                          + Zsum SetSizes * sizeof_Resource) (p + MemorySize) = true).
  { apply Z.eqb_eq. f_equal. unfold MemorySize. lia. }
  rewrite Hend. reflexivity.
Qed.

(** *** The layout [InitializeSets] establishes *)

Lemma lay_headers_before pSets t ds h t0 :
  t0 < t →
  lay_headers pSets t ds h !! (pSets + t0 * sizeof_DescriptorSet)
  = h !! (pSets + t0 * sizeof_DescriptorSet).
Proof.
  revert t h. induction ds as [|d ds IH]; intros t h Hlt; [done|].
  cbn [lay_headers]. rewrite IH by lia. apply lookup_insert_ne.
  pose proof sizeof_DescriptorSet_range. nia.
Qed.

Lemma lay_headers_lookup pSets t ds h (i : nat) d :
  ds !! i = Some d →
  lay_headers pSets t ds h !! (pSets + (t + Z.of_nat i) * sizeof_DescriptorSet)
  = Some (CellSet d).
Proof.
  revert t h i. induction ds as [|d0 ds IH]; intros t h i Hi; [done|].
  cbn [lay_headers]. destruct i as [|i].
  - injection Hi as ->. rewrite Z.add_0_r, lay_headers_before by lia.
    apply lookup_insert_eq.
  - replace (t + Z.of_nat (S i)) with (t + 1 + Z.of_nat i) by lia.
    by apply IH.
Qed.

Lemma headers_from_sizes cur l : m_NumResources <$> headers_from cur l = l.
Proof. revert cur. induction l as [|s l IH]; intros cur; cbn; [done|by rewrite IH]. Qed.

Lemma slot_range_shift cur s m n :
  (λ k, cur + s * sizeof_Resource + k * sizeof_Resource) <$> seqZ m n
  = (λ k, cur + k * sizeof_Resource) <$> seqZ (s + m) n.
Proof.
  rewrite <- fmap_add_seqZ, <- list_fmap_compose.
  apply list_fmap_ext. intros _ k _. cbn. lia.
Qed.

(** Each set views the contiguous range of slots that starts where the
    sets before it end. *)
Lemma headers_from_view cur l (t : nat) d :
  headers_from cur l !! t = Some d →
  slot_view d
  = (λ k, cur + k * sizeof_Resource) <$> seqZ (Zsum (take t l)) (m_NumResources d).
Proof.
  revert cur t. induction l as [|s l IH]; intros cur t Ht; [done|].
  destruct t as [|t].
  - injection Ht as <-. unfold slot_view. cbn.
    destruct (Z.ltb_spec 0 s); [done|]. by rewrite !seqZ_nil by lia.
  - cbn in Ht. rewrite (IH _ _ Ht). cbn [take Zsum foldr].
    fold (Zsum (take t l)). apply slot_range_shift.
Qed.

(** The views of the sets, one after the other, are the flat slot array. *)
Lemma headers_from_cover cur l :
  Forall is_Uint32 l →
  mjoin (slot_view <$> headers_from cur l)
  = (λ k, cur + k * sizeof_Resource) <$> seqZ 0 (Zsum l).
Proof.
  intros Hl. revert cur. induction Hl as [|s l Hs Hl IH]; intros cur; [done|].
  pose proof (Zsum_nonneg l Hl) as Hsum. unfold is_Uint32 in Hs.
  cbn [headers_from fmap list_fmap mjoin list_join Zsum foldr].
  change (list_fmap _ _ slot_view) with (fmap (M := list) slot_view).
  change (list_join _) with (mjoin (M := list) (A := Z)).
  rewrite IH. fold (Zsum l). rewrite seqZ_app, fmap_app by lia. f_equal.
  - unfold slot_view. cbn. destruct (Z.ltb_spec 0 s); [done|].
    by rewrite !seqZ_nil by lia.
  - by rewrite slot_range_shift, Z.add_0_l, Z.add_0_r.
Qed.

Lemma Resource_addr_inj c : Inj (=) (=) (Resource_addr c).
Proof.
  intros x y Hxy. unfold Resource_addr in Hxy.
  pose proof sizeof_Resource_range. nia.
Qed.

Lemma flat_slots_NoDup c : NoDup (flat_slots c).
Proof.
  unfold flat_slots. apply NoDup_fmap_2; [apply Resource_addr_inj|apply NoDup_seqZ].
Qed.

Lemma NoDup_mjoin_disjoint {A} (ls : list (list A)) (i j : nat) l1 l2 a :
  NoDup (mjoin ls) → ls !! i = Some l1 → ls !! j = Some l2 →
  a ∈ l1 → a ∈ l2 → i = j.
Proof.
  revert i j. induction ls as [|l ls IH]; intros i j Hnd Hi Hj H1 H2; [done|].
  cbn in Hnd. apply NoDup_app in Hnd as (_ & Hdisj & Hnd).
  assert (Hin : ∀ (n : nat) l', ls !! n = Some l' → a ∈ l' → a ∈ mjoin ls).
  { intros n l' Hn Ha. apply list_elem_of_join. exists l'. split; [done|].
    by eapply list_elem_of_lookup_2. }
  destruct i as [|i], j as [|j]; cbn in Hi, Hj.
  - done.
  - injection Hi as ->. exfalso. eapply Hdisj; [done|]. by eapply Hin.
  - injection Hj as ->. exfalso. eapply Hdisj; [done|]. by eapply Hin.
  - f_equal. by apply IH.
Qed.

Lemma set_headers_laid_out w ds :
  m_NumSets (Cache w) = Z.of_nat (length ds) →
  (∀ (i : nat) d, ds !! i = Some d →
     Heap w !! DescriptorSet_addr (Cache w) (Z.of_nat i) = Some (CellSet d)) →
  set_headers w = Some <$> ds.
Proof.
  intros HN Hlook. unfold set_headers. rewrite HN. apply list_eq. intros i.
  rewrite !list_lookup_fmap. destruct (ds !! i) as [d|] eqn:Hi.
  - rewrite lookup_seqZ_lt by (apply lookup_lt_Some in Hi; lia).
    rewrite Z.add_0_l. cbn [fmap option_fmap option_map].
    unfold header_at. by rewrite (Hlook i d Hi).
  - rewrite lookup_seqZ_ge by (apply lookup_ge_None in Hi; lia). done.
Qed.

(** C3, amended: for every sequence of set sizes whose sum fits in
    [Uint32], [InitializeSets] on a fresh cache completes and leaves this
    layout: the total slot count is the sum of the sizes; set [t] has a
    header of the size declared for it, whose view is the contiguous range
    of the flat slot array that starts after the slots of the sets before
    it; the views of distinct sets are disjoint and, one after the other,
    they are the whole flat array, every slot once; and the header area
    followed by the slot area ends exactly where the one allocated block
    ends, which is what the final assertion of the function checks. *)
Theorem InitializeSets_layout (MemAllocator : IMemoryAllocator)
    (SetSizes : list Z) (w : World) :
  Cache w = empty_cache →
  Forall is_Uint32 SetSizes →
  Z.of_nat (length SetSizes) ≤ Uint32_MAX →
  Zsum SetSizes ≤ Uint32_MAX →
  ∃ w' ds,
    InitializeSets MemAllocator (Z.of_nat (length SetSizes)) SetSizes w = Done tt w'
    ∧ m_NumSets (Cache w') = Z.of_nat (length SetSizes)
    ∧ m_TotalResources (Cache w') = Zsum SetSizes
    ∧ set_headers w' = Some <$> ds
    ∧ m_NumResources <$> ds = SetSizes
    ∧ (∀ (t : nat) d, ds !! t = Some d →
         slot_view d = Resource_addr (Cache w')
                         <$> seqZ (Zsum (take t SetSizes)) (m_NumResources d))
    ∧ (∀ (t1 t2 : nat) d1 d2 a,
         ds !! t1 = Some d1 → ds !! t2 = Some d2 →
         a ∈ slot_view d1 → a ∈ slot_view d2 → t1 = t2)
    ∧ mjoin (slot_view <$> ds) = flat_slots (Cache w')
    ∧ NoDup (flat_slots (Cache w'))
    ∧ let used := Z.of_nat (length SetSizes) * sizeof_DescriptorSet
                  + Zsum SetSizes * sizeof_Resource in
      Resource_addr (Cache w') (m_TotalResources (Cache w'))
      = m_pMemory (Cache w') + used
      ∧ Trace w'
        = Trace w ++ (if 0 <? used
                      then [EvAllocate (AllocatorId MemAllocator) used
                                       (m_pMemory (Cache w'))]
                      else []).
Proof.
  intros Hfresh Hsizes Hlen Hsum.
  pose proof (InitializeSets_fresh MemAllocator SetSizes w) as Hinit.
  rewrite Hfresh in Hinit. specialize (Hinit eq_refl eq_refl Hsizes Hlen Hsum).
  cbv zeta in Hinit.
  pose proof (Zsum_nonneg _ Hsizes) as Hsum0.
  pose proof sizeof_DescriptorSet_range as HszD.
  pose proof sizeof_Resource_range as HszR.
  set (NumSets := Z.of_nat (length SetSizes)) in *.
  set (used := NumSets * sizeof_DescriptorSet + Zsum SetSizes * sizeof_Resource) in *.
  set (p := Z.pos (NextBlock MemAllocator)) in *.
  destruct (0 <? used) eqn:Hpos.
  - set (ds := headers_from (p + NumSets * sizeof_DescriptorSet) SetSizes).
    assert (Hcover : mjoin (slot_view <$> ds)
                     = (λ k, p + NumSets * sizeof_DescriptorSet + k * sizeof_Resource)
                         <$> seqZ 0 (Zsum SetSizes))
      by (by apply headers_from_cover).
    eexists _, ds. split; [exact Hinit|].
    cbn [Cache with_Heap with_Trace with_Cache m_NumSets m_TotalResources m_pMemory
         Trace].
    split; [done|]. split; [done|]. split.
    { apply set_headers_laid_out.
      - cbn. unfold ds. by rewrite headers_from_length.
      - intros i d Hi. cbn. unfold DescriptorSet_addr. cbn.
        replace (Z.of_nat i) with (0 + Z.of_nat i) by lia.
        by apply lay_headers_lookup. }
    split; [apply headers_from_sizes|].
    split; [intros t d Ht; by apply headers_from_view|].
    split.
    { intros t1 t2 d1 d2 a H1 H2 Ha1 Ha2.
      apply (NoDup_mjoin_disjoint (slot_view <$> ds) t1 t2
               (slot_view d1) (slot_view d2) a); try done.
      - rewrite Hcover.
        apply (flat_slots_NoDup (mkCache (Some MemAllocator) p NumSets (Zsum SetSizes))).
      - by rewrite list_lookup_fmap, H1.
      - by rewrite list_lookup_fmap, H2. }
    split; [exact Hcover|].
    split; [apply flat_slots_NoDup|].
    cbv zeta. fold NumSets. fold used. rewrite Hpos. split; [|done].
    unfold Resource_addr, pResources_of, used. cbn. lia.
  - assert (SetSizes = []) as ->.
    { apply Z.ltb_ge in Hpos. destruct SetSizes as [|s l]; [done|].
      exfalso. unfold used, NumSets in Hpos. cbn [length] in Hpos. nia. }
    eexists _, []. split; [exact Hinit|]. cbn.
    unfold flat_slots, Resource_addr, pResources_of. cbn.
    rewrite app_nil_r. repeat split; try done.
    apply NoDup_nil_2.
Qed.

(** *** Initialising twice *)

Lemma for_fold_invariant {A B} (P : World → Prop) (l : list A)
    (body : A → B → M B) b w :
  (∀ x b' w', P w' → P (final (body x b' w'))) →
  P w → P (final (for_fold l body b w)).
Proof.
  revert b w. induction l as [|x l IH]; intros b w Hbody Hw; [done|].
  cbn [for_fold]. unfold mbind, M_bind.
  pose proof (Hbody x b w Hw) as Hx.
  destruct (body x b w) as [b' w'|e w']; [|done].
  by apply IH.
Qed.

Lemma bind_inv {A B} (m : M A) (f : A → M B) w b w' :
  (m ≫= f) w = Done b w' → ∃ a w1, m w = Done a w1 ∧ f a w1 = Done b w'.
Proof.
  unfold mbind, M_bind. destruct (m w) as [a w1|e w1]; [|done]. by exists a, w1.
Qed.

(** A call of [InitializeSets] that completes leaves the allocator set. *)
Lemma InitializeSets_sets_allocator MemAllocator NumSets SetSizes w w' :
  InitializeSets MemAllocator NumSets SetSizes w = Done tt w' →
  m_pAllocator (Cache w') = Some MemAllocator.
Proof.
  set (P := λ w0 : World, m_pAllocator (Cache w0) = Some MemAllocator).
  intros Hinit. unfold InitializeSets in Hinit.
  apply bind_inv in Hinit as (? & ? & [= <- <-] & Hinit).
  apply bind_inv in Hinit as ([] & ? & Hverify & Hinit).
  unfold VERIFY in Hverify. destruct (is_nullptr _ && _); [|done].
  injection Hverify as <-.
  do 3 apply bind_inv in Hinit as ([] & ? & [= <-] & Hinit).
  apply bind_inv in Hinit as ([] & w1 & Hcount & Hinit).
  assert (Hw1 : P w1).
  { match type of Hcount with
    | for_each ?l ?body ?W = _ =>
        pose proof (for_each_invariant P l body W) as Hinv
    end.
    rewrite Hcount in Hinv. apply Hinv; [|done].
    intros t w0 _ Hw0. unfold array_read, mbind, M_bind.
    by destruct (SetSizes !! _). }
  apply bind_inv in Hinit as (? & ? & [= <- <-] & Hinit).
  destruct (0 <? _); [|by injection Hinit as <-].
  apply bind_inv in Hinit as (p & w2 & Halloc & Hinit).
  cbv [ALLOCATE mbind M_bind modify mret M_ret] in Halloc.
  injection Halloc as <- <-.
  apply bind_inv in Hinit as ([] & ? & [= <-] & Hinit).
  apply bind_inv in Hinit as (? & ? & [= <- <-] & Hinit).
  apply bind_inv in Hinit as (cur & w3 & Hlay & Hinit).
  assert (Hw3 : P w3).
  { match type of Hlay with
    | for_fold ?l ?body ?c ?W = _ =>
        pose proof (for_fold_invariant P l body c W) as Hinv
    end.
    rewrite Hlay in Hinv. apply Hinv; [|done].
    intros t c w0 Hw0. unfold array_read, mbind, M_bind.
    destruct (SetSizes !! _); [|done].
    unfold GetDescriptorSet, mbind, M_bind, get, mret, M_ret. cbv beta iota.
    by destruct (t <? _). }
  apply bind_inv in Hinit as (? & ? & [= <- <-] & Hinit).
  unfold VERIFY in Hinit.
  destruct (ptr_eqb cur _); [|done]. by injection Hinit as <-.
Qed.

(** C5: a second [InitializeSets] on a cache that a first one initialised
    fails with [AlreadyInitialized]; the call is aborted in the very world
    it was made in, so that the set count, the headers and their slot
    ranges, the allocated block and the allocator are those of the first
    initialisation. *)
Theorem second_InitializeSets_is_rejected
    (Allocator1 Allocator2 : IMemoryAllocator) (NumSets1 NumSets2 : Z)
    (SetSizes1 SetSizes2 : list Z) (w w1 : World) :
  InitializeSets Allocator1 NumSets1 SetSizes1 w = Done tt w1 →
  InitializeSets Allocator2 NumSets2 SetSizes2 w1 = Abort AlreadyInitialized w1.
Proof.
  intros Hfirst. apply InitializeSets_sets_allocator in Hfirst.
  unfold InitializeSets.
  unfold mbind at 1, M_bind at 1, get at 1.
  unfold mbind at 1, M_bind at 1, VERIFY at 1.
  by rewrite Hfirst.
Qed.

(** ** Teardown *)

(** Destroying the resources at distinct addresses, each of which holds a
    constructed slot: one event per address, in order, with the object the
    slot held; nothing else in the block is touched. *)
Lemma destroy_Resources (addrs : list Z) w0 w :
  NoDup addrs →
  (∀ a, a ∈ addrs → Heap w !! a = Heap w0 !! a ∧ ∃ r, Heap w0 !! a = Some (CellRes r)) →
  ∃ w', for_each addrs destroy_Resource w = Done tt w'
        ∧ Cache w' = Cache w
        ∧ Trace w' = Trace w ++ ((λ a, EvDestroyResource a (released_at w0 a)) <$> addrs)
        ∧ ∀ a, a ∉ addrs → Heap w' !! a = Heap w !! a.
Proof.
  revert w. induction addrs as [|a addrs IH]; intros w Hnd Hcells.
  { exists w. by rewrite app_nil_r. }
  apply NoDup_cons in Hnd as [Ha Hnd].
  destruct (Hcells a ltac:(left)) as (Hwa & r & Hr).
  rewrite for_each_cons. unfold mbind at 1, M_bind at 1.
  unfold destroy_Resource at 1, load_Resource. run_monad. rewrite Hwa, Hr.
  match goal with
  | |- context [for_each addrs destroy_Resource ?W] =>
      destruct (IH W Hnd) as (w' & -> & Hc & Ht & Hh)
  end.
  { intros a' Ha'. cbn. rewrite lookup_delete_ne by (intros ->; done).
    apply Hcells. by right. }
  exists w'. split; [done|]. split; [done|]. split.
  - rewrite Ht. cbn. rewrite <- (assoc_L (++)). do 2 f_equal.
    unfold released_at. by rewrite Hr.
  - intros a' Ha'. apply not_elem_of_cons in Ha' as [Hne Ha'].
    rewrite Hh by done. cbn. by apply lookup_delete_ne.
Qed.

Lemma destroy_DescriptorSets (addrs : list Z) w :
  NoDup addrs →
  (∀ a, a ∈ addrs → ∃ d, Heap w !! a = Some (CellSet d)) →
  ∃ w', for_each addrs destroy_DescriptorSet w = Done tt w'
        ∧ Cache w' = Cache w
        ∧ Trace w' = Trace w ++ (EvDestroyDescriptorSet <$> addrs).
Proof.
  revert w. induction addrs as [|a addrs IH]; intros w Hnd Hcells.
  { exists w. by rewrite app_nil_r. }
  apply NoDup_cons in Hnd as [Ha Hnd].
  destruct (Hcells a ltac:(left)) as (d & Hd).
  rewrite for_each_cons. unfold mbind at 1, M_bind at 1.
  unfold destroy_DescriptorSet at 1, load_DescriptorSet. run_monad. rewrite Hd.
  match goal with
  | |- context [for_each addrs destroy_DescriptorSet ?W] =>
      destruct (IH W Hnd) as (w' & -> & Hc & Ht)
  end.
  { intros a' Ha'. cbn. rewrite lookup_delete_ne by (intros ->; done).
    apply Hcells. by right. }
  exists w'. split; [done|]. split; [done|].
  rewrite Ht. cbn. by rewrite <- (assoc_L (++)).
Qed.

Lemma DescriptorSet_addr_inj c : Inj (=) (=) (DescriptorSet_addr c).
Proof.
  intros x y Hxy. unfold DescriptorSet_addr in Hxy.
  pose proof sizeof_DescriptorSet_range. nia.
Qed.

(** The header area lies below the slot area. *)
Lemma header_below_slots c t res :
  t < m_NumSets c → 0 ≤ res → DescriptorSet_addr c t < Resource_addr c res.
Proof.
  intros Ht Hres. unfold DescriptorSet_addr, Resource_addr, pResources_of.
  pose proof sizeof_DescriptorSet_range. pose proof sizeof_Resource_range. nia.
Qed.

Lemma fully_constructed_spec w :
  fully_constructed w = true →
  (∀ t, 0 ≤ t < m_NumSets (Cache w) → is_Some (header_at w t))
  ∧ (∀ res, 0 ≤ res < m_TotalResources (Cache w) → is_Some (slot_at w res)).
Proof.
  unfold fully_constructed. rewrite andb_true_iff, !forallb_forall.
  intros [Hsets Hslots]. split.
  - intros t Ht. eapply bool_decide_eq_true, Hsets, list_elem_of_In, elem_of_seqZ. lia.
  - intros t Ht. eapply bool_decide_eq_true, Hslots, list_elem_of_In, elem_of_seqZ. lia.
Qed.

(** C6, amended: the destructor of a cache that owns a block, all of whose
    headers and slots have been constructed, destroys every slot of the
    flat array in forward order, releasing what each holds, then every set
    header, also in forward order, which is the order of their
    construction, and then frees the block through the stored allocator.
    On a cache without a block it does nothing. *)
Theorem teardown_order (w : World) (a : IMemoryAllocator) :
  m_pMemory (Cache w) ≠ 0 →
  m_pAllocator (Cache w) = Some a →
  fully_constructed w = true →
  (∃ w', destroy_ShaderResourceCacheVk w = Done tt w'
         ∧ Trace w' = Trace w ++ teardown_trace w)
  ∧ (∀ w0, m_pMemory (Cache w0) = 0 → destroy_ShaderResourceCacheVk w0 = Done tt w0).
Proof.
  intros Hmem Halloc Hfull. split.
  2:{ intros w0 Hw0. unfold destroy_ShaderResourceCacheVk. run_monad.
      by rewrite Hw0. }
  apply fully_constructed_spec in Hfull as [Hsets Hslots].
  unfold destroy_ShaderResourceCacheVk.
  unfold mbind at 1, M_bind at 1, get at 1.
  rewrite (proj2 (Z.eqb_neq _ _) Hmem). cbn [negb].
  (* the slots *)
  unfold mbind at 1, M_bind at 1.
  change (for_each (seqZ 0 (m_TotalResources (Cache w)))
            (λ res, destroy_Resource (pResources_of (Cache w) + res * sizeof_Resource)) w)
    with (for_each (seqZ 0 (m_TotalResources (Cache w)))
            (λ res, destroy_Resource (Resource_addr (Cache w) res)) w).
  rewrite <- (for_each_fmap (Resource_addr (Cache w)) _ destroy_Resource).
  destruct (destroy_Resources (flat_slots (Cache w)) w w) as (w1 & Hrun1 & Hc1 & Ht1 & Hh1).
  { apply flat_slots_NoDup. }
  { intros addr Haddr. split; [done|].
    apply list_elem_of_fmap in Haddr as (res & -> & Hres).
    apply elem_of_seqZ in Hres.
    destruct (Hslots res ltac:(lia)) as [r Hr]. unfold slot_at in Hr.
    destruct (Heap w !! _) as [[d|r']|]; try done. by exists r'. }
  unfold flat_slots in Hrun1. rewrite Hrun1.
  (* the set headers *)
  unfold mbind at 1, M_bind at 1.
  assert (Hloop2 :
    for_each (seqZ 0 (m_NumSets (Cache w)))
      (λ t, a0 ← GetDescriptorSet t; destroy_DescriptorSet a0) w1
    = for_each (DescriptorSet_addr (Cache w) <$> seqZ 0 (m_NumSets (Cache w)))
        destroy_DescriptorSet w1).
  { rewrite for_each_fmap.
    apply (for_each_ext_inv (λ w', Cache w' = Cache w)); [|done].
    intros t w' Ht Hc'. apply elem_of_seqZ in Ht.
    unfold GetDescriptorSet. run_monad. rewrite Hc'.
    rewrite (proj2 (Z.ltb_lt _ _)) by lia. split; [done|].
    unfold destroy_DescriptorSet, load_DescriptorSet. run_monad.
    by destruct (Heap w' !! _) as [[d|r]|]. }
  rewrite Hloop2.
  destruct (destroy_DescriptorSets
              (DescriptorSet_addr (Cache w) <$> seqZ 0 (m_NumSets (Cache w))) w1)
    as (w2 & -> & Hc2 & Ht2).
  { apply NoDup_fmap_2; [apply DescriptorSet_addr_inj|apply NoDup_seqZ]. }
  { intros addr Haddr.
    apply list_elem_of_fmap in Haddr as (t & -> & Ht).
    apply elem_of_seqZ in Ht.
    destruct (Hsets t ltac:(lia)) as [d Hd]. unfold header_at in Hd.
    rewrite Hh1.
    - destruct (Heap w !! _) as [[d'|r]|]; try done. by exists d'.
    - intros Hin. apply list_elem_of_fmap in Hin as (res & Heq & Hres).
      apply elem_of_seqZ in Hres.
      pose proof (header_below_slots (Cache w) t res). lia. }
  (* the block *)
  rewrite Halloc. eexists. split; [reflexivity|].
  cbn. rewrite Ht2, Ht1. unfold teardown_trace, slots_destroyed, sets_destroyed,
    block_freed, flat_slots.
  by rewrite Halloc, <- !(assoc_L (++)), <- !list_fmap_compose.
Qed.

(** ** [InitializeResources] and the kind of a slot *)

Lemma same_cell_refl c : same_cell c c.
Proof. by destruct c as [[d|r]|]. Qed.

Lemma same_cell_trans c1 c2 c3 : same_cell c1 c2 → same_cell c2 c3 → same_cell c1 c3.
Proof.
  destruct c1 as [[d1|r1]|], c2 as [[d2|r2]|], c3 as [[d3|r3]|]; cbn;
    intros; try done; congruence.
Qed.

Lemma same_kinds_refl w : same_kinds w w.
Proof. split; [done|]. intros a. apply same_cell_refl. Qed.

Lemma same_kinds_trans w1 w2 w3 :
  same_kinds w1 w2 → same_kinds w2 w3 → same_kinds w1 w3.
Proof.
  intros [Hc12 Hh12] [Hc23 Hh23]. split; [congruence|].
  intros a. by eapply same_cell_trans.
Qed.

(** Binding or clearing the object of a slot keeps every kind. *)
Lemma SetResource_same_kinds Set_ CacheOffset pObj w :
  same_kinds w (final (SetResource Set_ CacheOffset pObj w)).
Proof.
  unfold SetResource, GetDescriptorSet, load_DescriptorSet, GetResource, load_Resource.
  run_monad.
  destruct (Set_ <? _); [|apply same_kinds_refl]. cbn.
  destruct (Heap w !! _) as [[d|r]|]; try apply same_kinds_refl. cbn.
  destruct (CacheOffset <? _); [|apply same_kinds_refl]. cbn.
  destruct (Heap w !! (m_pResources d + _)) as [[d'|r]|] eqn:Hslot;
    try apply same_kinds_refl. cbn.
  split; [done|]. intros a. cbn. rewrite lookup_insert. case_decide as Ha.
  - subst a. by rewrite Hslot.
  - apply same_cell_refl.
Qed.

Lemma TransitionResources_same_kinds VerifyOnly w :
  same_kinds w (final (TransitionResources VerifyOnly w)).
Proof.
  rewrite TransitionResources_slots.
  destruct (pass_frame VerifyOnly (slots w) w) as (Hc & Hh & _).
  split; [done|]. intros a. rewrite Hh. apply same_cell_refl.
Qed.

Lemma uses_same_kinds us w : same_kinds w (final (uses us w)).
Proof.
  unfold uses. apply (for_each_invariant (same_kinds w)); [|apply same_kinds_refl].
  intros u w' _ Hw'. eapply same_kinds_trans; [exact Hw'|].
  destruct u; [apply SetResource_same_kinds|apply TransitionResources_same_kinds].
Qed.

(** What a set reports at an offset keeps its kind as long as the kinds
    are kept. *)
Lemma ReadResource_same_kinds Set_ CacheOffset w w' r :
  same_kinds w w' →
  ReadResource Set_ CacheOffset w = Done r w →
  ∃ pObj, ReadResource Set_ CacheOffset w' = Done (mkResource (Type_ r) pObj) w'.
Proof.
  intros [Hc Hh].
  unfold ReadResource, GetDescriptorSet, load_DescriptorSet, GetResource, load_Resource.
  run_monad. rewrite Hc.
  destruct (Set_ <? _); [|done]. cbn.
  pose proof (Hh (m_pMemory (Cache w) + Set_ * sizeof_DescriptorSet)) as Hd.
  destruct (Heap w !! _) as [[d|r0]|]; try done.
  destruct (Heap w' !! _) as [[d'|r0]|]; try done. cbn in Hd. subst d'. cbn.
  destruct (CacheOffset <? _); [|done]. cbn.
  pose proof (Hh (m_pResources d + CacheOffset * sizeof_Resource)) as Hr.
  destruct (Heap w !! (m_pResources d + _)) as [[d'|r0]|]; try done.
  destruct (Heap w' !! (m_pResources d + _)) as [[d'|[kind' pObj']]|]; try done.
  cbn in Hr. intros [= ->]. exists pObj'. by subst kind'.
Qed.

(** The loop of [InitializeResources]: after [n] iterations the first [n]
    slots of the range hold the kind and no object, and nothing else has
    changed. *)
Lemma InitializeResources_loop (n : nat) pDescrSet d Offset kind w :
  Heap w !! pDescrSet = Some (CellSet d) →
  pDescrSet < m_pResources d →
  0 ≤ Offset → Offset + Z.of_nat n ≤ m_NumResources d ≤ Uint32_MAX →
  ∃ w', for_each (seqZ 0 (Z.of_nat n))
          (λ res, DescrSet ← load_DescriptorSet pDescrSet;
                  a ← GetResource DescrSet (wrap32 (Offset + res));
                  construct a (CellRes (mkResource kind None))) w
        = Done tt w'
        ∧ Cache w' = Cache w
        ∧ (∀ i, Offset ≤ i < Offset + Z.of_nat n →
             Heap w' !! (m_pResources d + i * sizeof_Resource)
             = Some (CellRes (mkResource kind None)))
        ∧ (∀ a, (∀ i, Offset ≤ i < Offset + Z.of_nat n →
                      a ≠ m_pResources d + i * sizeof_Resource) →
                Heap w' !! a = Heap w !! a).
Proof.
  intros Hhdr Hbelow HOff. pose proof sizeof_Resource_range as Hsz.
  induction n as [|n IH]; intros Hrange.
  { exists w. split; [done|]. split; [done|]. split; [intros i Hi; lia|done]. }
  destruct IH as (w1 & Hrun & Hc & Hset & Hother); [lia|].
  rewrite seqZ_S, for_each_app. unfold mbind at 1, M_bind at 1. rewrite Hrun.
  rewrite for_each_cons. unfold for_each at 1. cbn [for_fold].
  unfold load_DescriptorSet, GetResource. run_monad.
  rewrite Hother, Hhdr by (intros i Hi; nia).
  rewrite wrap32_small by lia.
  rewrite (proj2 (Z.ltb_lt _ _)) by lia. cbn.
  eexists. split; [reflexivity|]. cbn. split; [done|]. split.
  - intros i Hi. rewrite lookup_insert. case_decide as Hne; [done|].
    apply Hset.
    assert (i ≠ Offset + Z.of_nat n) by (intros ->; apply Hne; f_equal; lia).
    lia.
  - intros a Ha. rewrite lookup_insert_ne by (apply not_eq_sym, Ha; lia).
    apply Hother. intros i Hi. apply Ha. lia.
Qed.

(** C7: [InitializeResources], called within the slot range of a set,
    completes, and every slot of the range then reports the given kind
    and an empty binding; whatever the binding code and the transition
    pass do with the cache afterwards, binding and clearing objects and
    running passes in either mode, each of these slots keeps reporting
    the kind it was given. *)
Theorem InitializeResources_kind_is_kept (w : World) (Set_ Offset ArraySize : Z)
    (kind : ResourceType) (d : DescriptorSet) :
  0 ≤ Set_ < m_NumSets (Cache w) →
  header_at w Set_ = Some d →
  pResources_of (Cache w) ≤ m_pResources d →
  0 ≤ Offset → 0 ≤ ArraySize →
  Offset + ArraySize ≤ m_NumResources d ≤ Uint32_MAX →
  ∃ w1,
    InitializeResources Set_ Offset ArraySize kind w = Done tt w1
    ∧ (∀ i, Offset ≤ i < Offset + ArraySize →
         ReadResource Set_ i w1 = Done (mkResource kind None) w1)
    ∧ (∀ us i, Offset ≤ i < Offset + ArraySize →
         ∃ pObj, ReadResource Set_ i (final (uses us w1))
                 = Done (mkResource kind pObj) (final (uses us w1))).
Proof.
  intros HSet Hhdr Hview HOff HSize Hrange.
  pose proof sizeof_DescriptorSet_range as HszD.
  pose proof sizeof_Resource_range as HszR.
  unfold header_at, DescriptorSet_addr in Hhdr.
  destruct (Heap w !! _) as [[d'|r]|] eqn:Hcell; try done.
  injection Hhdr as ->.
  assert (Hbelow : m_pMemory (Cache w) + Set_ * sizeof_DescriptorSet < m_pResources d).
  { unfold pResources_of in Hview. nia. }
  destruct (InitializeResources_loop (Z.to_nat ArraySize) _ d Offset kind w
              Hcell Hbelow HOff ltac:(lia))
    as (w1 & Hrun & Hc & Hset & Hother).
  rewrite Z2Nat.id in Hrun, Hset, Hother by lia.
  assert (Hread : ∀ i, Offset ≤ i < Offset + ArraySize →
            ReadResource Set_ i w1 = Done (mkResource kind None) w1).
  { intros i Hi.
    unfold ReadResource, GetDescriptorSet, load_DescriptorSet, GetResource,
      load_Resource.
    run_monad. rewrite Hc. rewrite (proj2 (Z.ltb_lt _ _)) by lia. cbn.
    rewrite Hother, Hcell by (intros j Hj; nia). cbn.
    rewrite (proj2 (Z.ltb_lt _ _)) by lia. cbn.
    by rewrite Hset. }
  exists w1. split; [|split; [exact Hread|]].
  - unfold InitializeResources, GetDescriptorSet.
    unfold mbind at 1, M_bind at 1. unfold mbind at 1, M_bind at 1, get at 1.
    rewrite (proj2 (Z.ltb_lt _ _)) by lia. exact Hrun.
  - intros us i Hi.
    apply (ReadResource_same_kinds Set_ i w1 (final (uses us w1))
             (mkResource kind None)); [apply uses_same_kinds|by apply Hread].
Qed.

(** ** Beyond the layout: what [InitializeSets] does on any set sizes *)

Lemma wrap32_range x : 0 ≤ wrap32 x ≤ Uint32_MAX.
Proof.
  unfold wrap32, Uint32_MAX. pose proof (Z.mod_pos_bound x (2 ^ 32)). lia.
Qed.

Lemma ptr_eqb_add_l a x y : ptr_eqb (a + x) (a + y) = ptr_eqb x y.
Proof.
  unfold ptr_eqb, wrap_size_t.
  destruct (Z.eqb_spec (x mod 2 ^ 64) (y mod 2 ^ 64)) as [Heq|Hne].
  - apply Z.eqb_eq. by rewrite (Zplus_mod a x), Heq, <- Zplus_mod.
  - apply Z.eqb_neq. intros Heq. apply Hne.
    apply Z.cong_iff_0 in Heq. apply Z.cong_iff_0.
    by replace (x - y) with (a + x - (a + y)) by lia.
Qed.

(** Whether a pointer is kept as the address it stands for or as its value
    modulo [2^64] makes no difference to a comparison. *)
Lemma ptr_eqb_wrap p q : ptr_eqb (wrap_size_t p) q = ptr_eqb p q.
Proof. unfold ptr_eqb, wrap_size_t. by rewrite Z.mod_mod. Qed.

(** [InitializeSets] on a cache without allocator and block, whatever the sum
    of the sizes: the slot count is the sum modulo [2^32], the block is
    sized with that count, and the final assertion compares the cursor, which
    has advanced by the slots of the true sum, with the end of the block. *)
Lemma InitializeSets_run MemAllocator (SetSizes : list Z) w :
  is_nullptr (m_pAllocator (Cache w)) = true →
  m_pMemory (Cache w) = 0 →
  Forall is_Uint32 SetSizes →
  Z.of_nat (length SetSizes) ≤ Uint32_MAX →
  let NumSets := Z.of_nat (length SetSizes) in
  let total := wrap32 (Zsum SetSizes) in
  let MemorySize := NumSets * sizeof_DescriptorSet + total * sizeof_Resource in
  let p := Z.pos (NextBlock MemAllocator) in
  let laid :=
    with_Heap (lay_headers p 0
                 (headers_from (p + NumSets * sizeof_DescriptorSet) SetSizes)
                 (Heap w))
      (with_Trace (Trace w ++ [EvAllocate (AllocatorId MemAllocator) MemorySize p])
         (with_Cache (mkCache (Some MemAllocator) p NumSets total) w)) in
  InitializeSets MemAllocator NumSets SetSizes w
  = if 0 <? MemorySize then
      if ptr_eqb (Zsum SetSizes * sizeof_Resource) (total * sizeof_Resource)
      then Done tt laid
      else Abort LayoutInvariantViolated laid
    else Done tt (with_Cache (mkCache (Some MemAllocator) 0 NumSets total) w).
Proof.
  intros Hnull Hmem Hsizes Hlen NumSets total MemorySize p laid.
  pose proof (wrap32_range (Zsum SetSizes)) as Htotal.
  unfold InitializeSets.
  unfold mbind at 1, M_bind at 1, get at 1.
  unfold mbind at 1, M_bind at 1, VERIFY at 1.
  rewrite Hnull, Hmem. cbn [andb Z.eqb]. unfold mret at 1, M_ret at 1.
  do 3 (unfold mbind at 1, M_bind at 1, modify_cache at 1, modify at 1).
  unfold mbind at 1, M_bind at 1.
  match goal with
  | |- context [for_each _ _ ?W] =>
      pose proof (count_loop SetSizes [] 0 W eq_refl) as Hloop
  end.
  cbn [length app] in Hloop. change (Z.of_nat 0) with 0 in Hloop.
  fold NumSets in Hloop. rewrite Hloop.
  clear Hloop. rewrite Z.add_0_l. fold total.
  unfold mbind at 1, M_bind at 1, get at 1.
  cbn [Cache with_Cache set_TotalResources set_NumSets set_pAllocator
       m_TotalResources m_pAllocator m_pMemory m_NumSets].
  destruct (MemorySize_exact NumSets total) as [-> Hsize0];
    [unfold NumSets; lia|lia|].
  fold MemorySize in Hsize0 |- *.
  destruct (0 <? MemorySize) eqn:Hpos.
  2:{ unfold mret, M_ret, with_Cache, set_TotalResources, set_NumSets, set_pAllocator.
      cbn. by rewrite Hmem. }
  unfold mbind at 1, M_bind at 1, ALLOCATE at 1.
  unfold mbind at 1, M_bind at 1, modify at 1. unfold mret at 1, M_ret at 1.
  fold p.
  unfold mbind at 1, M_bind at 1, modify_cache at 1, modify at 1.
  unfold mbind at 1, M_bind at 1, get at 1.
  unfold mbind at 1, M_bind at 1.
  match goal with
  | |- context [for_fold _ _ ?c ?W] =>
      pose proof (lay_loop SetSizes [] c W eq_refl) as Hloop
  end.
  cbn [length app] in Hloop. change (Z.of_nat 0) with 0 in Hloop.
  fold NumSets in Hloop. rewrite Hloop.
  clear Hloop. unfold mbind at 1, M_bind at 1, get at 1. unfold VERIFY.
  cbn [Cache with_Heap with_Cache with_Trace set_pMemory set_TotalResources
       set_NumSets set_pAllocator m_pMemory m_NumSets].
  replace (p + MemorySize)
    with (p + NumSets * sizeof_DescriptorSet + total * sizeof_Resource)
    by (unfold MemorySize; lia).
  rewrite ptr_eqb_add_l. by destruct (ptr_eqb _ _).
Qed.

Lemma no_sets_no_memory (SetSizes : list Z) total :
  0 ≤ total →
  (0 <? Z.of_nat (length SetSizes) * sizeof_DescriptorSet + total * sizeof_Resource) = false →
  SetSizes = [].
Proof.
  intros Htotal Hpos. apply Z.ltb_ge in Hpos.
  pose proof sizeof_DescriptorSet_range. pose proof sizeof_Resource_range.
  destruct SetSizes as [|s l]; [done|]. exfalso. cbn [length] in Hpos. nia.
Qed.

(** X1: [InitializeSets] on a fresh cache stores the sum of the set sizes
    modulo [2^32] as its slot count and sizes the block with that count.  It
    completes exactly when the byte size of the slots of the true sum, as the
    64-bit cursor accumulates it, is the byte size of the slots counted;
    otherwise the final assertion stops the call.  So the call completes
    whenever the sum fits in [Uint32], and the assertion catches every sum
    that does not fit as long as the byte size of its slots fits in 64 bits;
    beyond that, a sum that does not fit can pass unnoticed. *)
Theorem InitializeSets_completes_iff_byte_sizes_agree (MemAllocator : IMemoryAllocator)
    (SetSizes : list Z) (w : World) :
  Cache w = empty_cache →
  Forall is_Uint32 SetSizes →
  Z.of_nat (length SetSizes) ≤ Uint32_MAX →
  let o := InitializeSets MemAllocator (Z.of_nat (length SetSizes)) SetSizes w in
  let total := wrap32 (Zsum SetSizes) in
  o = (if wrap_size_t (Zsum SetSizes * sizeof_Resource) =? total * sizeof_Resource
       then Done tt (final o)
       else Abort LayoutInvariantViolated (final o))
  ∧ m_TotalResources (Cache (final o)) = total
  ∧ (Zsum SetSizes ≤ Uint32_MAX → completed o = true)
  ∧ (Uint32_MAX < Zsum SetSizes → Zsum SetSizes * sizeof_Resource < 2 ^ 64 →
     fault_of o = Some LayoutInvariantViolated).
Proof.
  intros Hfresh Hsizes Hlen.
  pose proof (InitializeSets_run MemAllocator SetSizes w) as Hrun.
  rewrite Hfresh in Hrun. specialize (Hrun eq_refl eq_refl Hsizes Hlen).
  cbv zeta in Hrun |- *. rewrite Hrun. clear Hrun.
  pose proof (Zsum_nonneg _ Hsizes) as Hsum0.
  pose proof (wrap32_range (Zsum SetSizes)) as Htotal.
  pose proof sizeof_Resource_range as HszR.
  unfold ptr_eqb.
  assert (Hslots : wrap_size_t (wrap32 (Zsum SetSizes) * sizeof_Resource)
                   = wrap32 (Zsum SetSizes) * sizeof_Resource).
  { apply Z.mod_small. unfold Uint32_MAX in Htotal. nia. }
  rewrite Hslots. clear Hslots.
  assert (Hfits : Zsum SetSizes ≤ Uint32_MAX →
    (wrap_size_t (Zsum SetSizes * sizeof_Resource)
     =? wrap32 (Zsum SetSizes) * sizeof_Resource) = true).
  { intros Hle. apply Z.eqb_eq. rewrite wrap32_small by lia.
    apply Z.mod_small. unfold Uint32_MAX in Hle. nia. }
  assert (Hcaught : Uint32_MAX < Zsum SetSizes →
    Zsum SetSizes * sizeof_Resource < 2 ^ 64 →
    (wrap_size_t (Zsum SetSizes * sizeof_Resource)
     =? wrap32 (Zsum SetSizes) * sizeof_Resource) = false).
  { intros Hgt Hbytes. apply Z.eqb_neq.
    unfold wrap_size_t. rewrite Z.mod_small by nia. nia. }
  destruct (0 <? _) eqn:Hpos.
  - destruct (_ =? _) eqn:Hcmp; cbn [final Cache m_TotalResources with_Heap
                                       with_Trace with_Cache completed fault_of].
    + do 2 (split; [reflexivity|]). split; [reflexivity|].
      intros Hgt Hbytes. by specialize (Hcaught Hgt Hbytes).
    + do 2 (split; [reflexivity|]). split; [|reflexivity].
      intros Hle. by specialize (Hfits Hle).
  - apply no_sets_no_memory in Hpos as ->; [|lia].
    rewrite Hfits by done. cbn.
    do 2 (split; [reflexivity|]). split; [reflexivity|].
    unfold Uint32_MAX. lia.
Qed.

(** *** The headers *)


Lemma lay_headers_other pSets t ds h a :
  (∀ i : nat, (i < length ds)%nat →
              a ≠ pSets + (t + Z.of_nat i) * sizeof_DescriptorSet) →
  lay_headers pSets t ds h !! a = h !! a.
Proof.
  revert t h. induction ds as [|d ds IH]; intros t h Ha; [done|].
  cbn [lay_headers]. rewrite IH.
  - apply lookup_insert_ne. specialize (Ha 0%nat ltac:(cbn; lia)).
    rewrite Z.add_0_r in Ha. congruence.
  - intros i Hi. specialize (Ha (S i) ltac:(cbn; lia)).
    by replace (t + 1 + Z.of_nat i) with (t + Z.of_nat (S i)) by lia.
Qed.


(** X3: [InitializeSets] constructs the set headers and nothing else.  Whether
    it completes or not, it leaves the buffers, the textures, the command
    stream and the log as they were, and it writes no address of the block
    but those of the headers: no slot is constructed, the slot area is the
    raw memory it was. *)
Theorem InitializeSets_constructs_only_headers (MemAllocator : IMemoryAllocator)
    (SetSizes : list Z) (w : World) :
  Cache w = empty_cache →
  Forall is_Uint32 SetSizes →
  Z.of_nat (length SetSizes) ≤ Uint32_MAX →
  let w' := final (InitializeSets MemAllocator (Z.of_nat (length SetSizes)) SetSizes w) in
  Buffers w' = Buffers w ∧ Textures w' = Textures w
  ∧ Commands w' = Commands w ∧ Log w' = Log w
  ∧ (∀ a, (∀ t, 0 ≤ t < m_NumSets (Cache w') → a ≠ DescriptorSet_addr (Cache w') t) →
          Heap w' !! a = Heap w !! a)
  ∧ (∀ res, 0 ≤ res →
            Heap w' !! Resource_addr (Cache w') res = Heap w !! Resource_addr (Cache w') res).
Proof.
  intros Hfresh Hsizes Hlen.
  pose proof (InitializeSets_run MemAllocator SetSizes w) as Hrun.
  rewrite Hfresh in Hrun. specialize (Hrun eq_refl eq_refl Hsizes Hlen).
  cbv zeta in Hrun |- *. rewrite Hrun. clear Hrun.
  assert (Hheap : ∀ o : Outcome unit,
    Buffers (final o) = Buffers w → Textures (final o) = Textures w →
    Commands (final o) = Commands w → Log (final o) = Log w →
    (∀ a, (∀ t, 0 ≤ t < m_NumSets (Cache (final o)) →
                a ≠ DescriptorSet_addr (Cache (final o)) t) →
          Heap (final o) !! a = Heap w !! a) →
    Buffers (final o) = Buffers w ∧ Textures (final o) = Textures w
    ∧ Commands (final o) = Commands w ∧ Log (final o) = Log w
    ∧ (∀ a, (∀ t, 0 ≤ t < m_NumSets (Cache (final o)) →
                  a ≠ DescriptorSet_addr (Cache (final o)) t) →
            Heap (final o) !! a = Heap w !! a)
    ∧ (∀ res, 0 ≤ res →
              Heap (final o) !! Resource_addr (Cache (final o)) res
              = Heap w !! Resource_addr (Cache (final o)) res)).
  { intros o Hb Ht Hc Hl Hh. repeat (split; [done|]).
    intros res Hres. apply Hh. intros t Ht'.
    pose proof (header_below_slots (Cache (final o)) t res ltac:(lia) Hres). lia. }
  destruct (0 <? _) eqn:Hpos.
  - assert (Hlaid : ∀ a,
      (∀ t, 0 ≤ t < Z.of_nat (length SetSizes) →
            a ≠ Z.pos (NextBlock MemAllocator) + t * sizeof_DescriptorSet) →
      lay_headers (Z.pos (NextBlock MemAllocator)) 0
        (headers_from (Z.pos (NextBlock MemAllocator)
                       + Z.of_nat (length SetSizes) * sizeof_DescriptorSet) SetSizes)
        (Heap w) !! a = Heap w !! a).
    { intros a Ha. apply lay_headers_other. intros i Hi.
      rewrite headers_from_length in Hi. rewrite Z.add_0_l. apply Ha. lia. }
    destruct (ptr_eqb _ _); apply Hheap; try done;
      intros a Ha; by apply Hlaid.
  - apply Hheap; done.
Qed.

(** ** Beyond the kinds: what [InitializeResources] leaves alone *)

Lemma InitializeResources_unfold Set_ Offset ArraySize kind w :
  InitializeResources Set_ Offset ArraySize kind w
  = if Set_ <? m_NumSets (Cache w)
    then for_each (seqZ 0 ArraySize)
           (construct_Resource (DescriptorSet_addr (Cache w) Set_) Offset kind) w
    else Abort OutOfRange w.
Proof.
  unfold InitializeResources, GetDescriptorSet.
  unfold mbind at 1, M_bind at 1. unfold mbind at 1, M_bind at 1, get at 1.
  by destruct (Set_ <? _).
Qed.

(** An iteration writes the block and nothing else. *)
Lemma construct_Resource_only_heap pDescrSet Offset kind res w :
  ∃ h, final (construct_Resource pDescrSet Offset kind res w) = with_Heap h w.
Proof.
  unfold construct_Resource, load_DescriptorSet, GetResource. run_monad.
  destruct (Heap w !! pDescrSet) as [[d|r]|];
    try (exists (Heap w); by rewrite with_Heap_id).
  cbn. destruct (_ <? _); cbn; [by eexists|].
  exists (Heap w). by rewrite with_Heap_id.
Qed.

Lemma InitializeResources_loop_only_heap pDescrSet Offset kind l w :
  ∃ h, final (for_each l (construct_Resource pDescrSet Offset kind) w) = with_Heap h w.
Proof.
  apply (for_each_invariant (λ w', ∃ h, w' = with_Heap h w)).
  - intros res w' _ [h ->].
    destruct (construct_Resource_only_heap pDescrSet Offset kind res (with_Heap h w))
      as [h' ->]. by exists h'.
  - exists (Heap w). by rewrite with_Heap_id.
Qed.

(** X4: [InitializeResources], called within the slot range of a set, writes
    the slots of the range and nothing else: the members of the cache, the
    headers, every slot outside the range, the buffers and textures, the
    command stream, the log and the lifetime trace are what they were.  In
    particular it releases nothing: an object bound to a slot of the range is
    dropped without a release. *)
Theorem InitializeResources_writes_only_its_range (w : World)
    (Set_ Offset ArraySize : Z) (kind : ResourceType) (d : DescriptorSet) :
  0 ≤ Set_ < m_NumSets (Cache w) →
  header_at w Set_ = Some d →
  pResources_of (Cache w) ≤ m_pResources d →
  0 ≤ Offset → 0 ≤ ArraySize →
  Offset + ArraySize ≤ m_NumResources d ≤ Uint32_MAX →
  ∃ w1,
    InitializeResources Set_ Offset ArraySize kind w = Done tt w1
    ∧ w1 = with_Heap (Heap w1) w
    ∧ ∀ a, (∀ i, Offset ≤ i < Offset + ArraySize →
                 a ≠ m_pResources d + i * sizeof_Resource) →
           Heap w1 !! a = Heap w !! a.
Proof.
  intros HSet Hhdr Hview HOff HSize Hrange.
  pose proof sizeof_DescriptorSet_range as HszD.
  unfold header_at, DescriptorSet_addr in Hhdr.
  destruct (Heap w !! _) as [[d'|r]|] eqn:Hcell; try done.
  injection Hhdr as ->.
  assert (Hbelow : m_pMemory (Cache w) + Set_ * sizeof_DescriptorSet < m_pResources d).
  { unfold pResources_of in Hview. nia. }
  destruct (InitializeResources_loop (Z.to_nat ArraySize) _ d Offset kind w
              Hcell Hbelow HOff ltac:(lia))
    as (w1 & Hrun & _ & _ & Hother).
  rewrite Z2Nat.id in Hrun, Hother by lia.
  assert (Hinit : InitializeResources Set_ Offset ArraySize kind w = Done tt w1).
  { rewrite InitializeResources_unfold, (proj2 (Z.ltb_lt _ _)) by lia. exact Hrun. }
  exists w1. split; [exact Hinit|]. split; [|exact Hother].
  destruct (InitializeResources_loop_only_heap
              (DescriptorSet_addr (Cache w) Set_) Offset kind (seqZ 0 ArraySize) w)
    as [h Hh].
  unfold construct_Resource, DescriptorSet_addr in Hh. rewrite Hrun in Hh.
  cbn in Hh. by subst w1.
Qed.

Lemma construct_Resource_Cache pDescrSet Offset kind l w :
  Cache (final (for_each l (construct_Resource pDescrSet Offset kind) w)) = Cache w.
Proof.
  by destruct (InitializeResources_loop_only_heap pDescrSet Offset kind l w) as [h ->].
Qed.

(** X5: initialising a range in one call, or its two halves in two calls one
    after the other, is the same, also when a call fails: the world and the
    outcome agree. *)
Theorem InitializeResources_split (w : World) (Set_ Offset n1 n2 : Z)
    (kind : ResourceType) :
  0 ≤ n1 → 0 ≤ n2 →
  InitializeResources Set_ Offset (n1 + n2) kind w
  = (InitializeResources Set_ Offset n1 kind;;
     InitializeResources Set_ (wrap32 (Offset + n1)) n2 kind) w.
Proof.
  intros Hn1 Hn2. unfold mbind at 1, M_bind at 1.
  rewrite !InitializeResources_unfold.
  destruct (Set_ <? m_NumSets (Cache w)) eqn:HSet; [|done].
  rewrite seqZ_app, for_each_app by lia. unfold mbind at 1, M_bind at 1.
  pose proof (construct_Resource_Cache (DescriptorSet_addr (Cache w) Set_) Offset kind
                (seqZ 0 n1) w) as Hc.
  destruct (for_each (seqZ 0 n1) _ w) as [[] w1|e w1]; [|done].
  cbn in Hc. rewrite InitializeResources_unfold, Hc, HSet.
  replace (seqZ (0 + n1) n2) with (Z.add n1 <$> seqZ 0 n2)
    by (rewrite fmap_add_seqZ; f_equal; lia).
  rewrite for_each_fmap.
  apply for_each_ext. intros res w' _.
  unfold construct_Resource. rewrite wrap32_add_l.
  by rewrite (Z.add_assoc Offset n1 res).
Qed.

(** ** Beyond the table: what a pass does as a whole *)

(** A pass over slots whose demands are all met changes nothing, in either
    mode. *)
Lemma met_pass_noop VerifyOnly (l : list (option Resource)) w :
  forallb (met w) (omap slot_demand l) = true →
  final (for_each l (visit_slot VerifyOnly) w) = w.
Proof.
  induction l as [|o l IH]; intros Hmet; [done|].
  rewrite for_each_cons. unfold mbind, M_bind. rewrite visit_slot_table.
  destruct o as [Res|]; [|done]. cbn [omap list_omap slot_demand] in Hmet.
  destruct (demand Res) as [r state| |f]; [|by apply IH|done].
  cbn [forallb] in Hmet. apply andb_true_iff in Hmet as [Hr Hmet].
  unfold met in Hr. cbn in Hr. rewrite Hr. by apply IH.
Qed.

(** X6: in the steady state a pass costs nothing.  When every resource the
    slots depend on is in the state they require, a pass in either mode
    leaves the world as it found it: no diagnostic, no request, no change of
    state. *)
Theorem steady_state_pass_is_noop (VerifyOnly : bool) (w : World) :
  all_met w = true →
  final (TransitionResources VerifyOnly w) = w.
Proof.
  intros Hmet. rewrite TransitionResources_slots. by apply met_pass_noop.
Qed.

(** A verify pass that completes logs the message of every demand that is
    not met, in the order of the slots. *)
Lemma verify_pass_exact (l : list (option Resource)) w0 ms :
  completed (for_each l (visit_slot true) (with_Log (Log w0 ++ ms) w0)) = true →
  final (for_each l (visit_slot true) (with_Log (Log w0 ++ ms) w0))
  = with_Log (Log w0 ++ ms
              ++ ((λ d, mismatch_message w0 d.1)
                    <$> List.filter (λ d, negb (met w0 d)) (omap slot_demand l))) w0.
Proof.
  revert ms. induction l as [|o l IH]; intros ms.
  { intros _. cbn. by rewrite app_nil_r. }
  rewrite for_each_cons. unfold mbind, M_bind. rewrite visit_slot_table.
  destruct o as [Res|]; [|done]. cbn [omap list_omap slot_demand].
  destruct (demand Res) as [r state| |f]; [|apply IH|done].
  change (native_state (with_Log (Log w0 ++ ms) w0) r) with (native_state w0 r).
  cbn [List.filter].
  change (met w0 (r, state)) with (native_state w0 r =? state).
  destruct (native_state w0 r =? state) eqn:Heq; cbn [negb].
  - apply IH.
  - unfold report. cbn [Log with_Log].
    change (mismatch_message (with_Log (Log w0 ++ ms) w0) r)
      with (mismatch_message w0 r).
    change (with_Log ((Log w0 ++ ms) ++ [mismatch_message w0 r])
              (with_Log (Log w0 ++ ms) w0))
      with (with_Log ((Log w0 ++ ms) ++ [mismatch_message w0 r]) w0).
    rewrite <- (assoc_L (++)). intros Hdone.
    rewrite (IH (ms ++ [mismatch_message w0 r]) Hdone).
    rewrite fmap_cons. cbn [fst]. by rewrite <- (assoc_L (++)).
Qed.

(** X7: verify mode is exhaustive.  A verify pass that completes reports
    every mismatch, not only the first: the log grows by exactly one message
    for each slot whose resource is not in the required state, in flat slot
    order, each naming that resource; nothing else changes. *)
Theorem verify_reports_every_mismatch (w : World) :
  completed (TransitionResources true w) = true →
  final (TransitionResources true w)
  = with_Log (Log w ++ ((λ d, mismatch_message w d.1) <$> mismatches w)) w.
Proof.
  rewrite TransitionResources_slots. intros Hdone.
  pose proof (verify_pass_exact (slots w) w []) as Hexact.
  rewrite app_nil_r in Hexact.
  replace (with_Log (Log w) w) with w in Hexact by (by destruct w).
  by apply Hexact.
Qed.

(** An apply pass never shortens the command stream. *)
Lemma apply_pass_commands_le (l : list (option Resource)) w :
  (length (Commands w) ≤ length (Commands (final (for_each l (visit_slot false) w))))%nat.
Proof.
  apply (for_each_invariant
           (λ w', (length (Commands w) ≤ length (Commands w'))%nat)); [|done].
  intros o w' _ Hw'. rewrite visit_slot_table. destruct o as [Res|]; [|done].
  destruct (demand Res) as [r state| |f]; try done.
  destruct (native_state w' r =? state); [done|].
  destruct (request_frame r state w') as (w2 & -> & _ & _ & _ & _ & Hlen & _).
  cbn. lia.
Qed.

(** An apply pass that completes over a demand that is not met lengthens
    it. *)
Lemma apply_pass_commands_lt (l : list (option Resource)) w :
  completed (for_each l (visit_slot false) w) = true →
  forallb (met w) (omap slot_demand l) = false →
  (length (Commands w) < length (Commands (final (for_each l (visit_slot false) w))))%nat.
Proof.
  induction l as [|o l IH]; [done|].
  rewrite for_each_cons. unfold mbind, M_bind. rewrite visit_slot_table.
  destruct o as [Res|]; [|done]. cbn [omap list_omap slot_demand].
  destruct (demand Res) as [r state| |f]; [|apply IH|done].
  cbn [forallb]. change (met w (r, state)) with (native_state w r =? state).
  destruct (native_state w r =? state); [apply IH|].
  intros _ _.
  destruct (request_frame r state w) as (w2 & -> & _ & _ & _ & _ & Hlen & _).
  pose proof (apply_pass_commands_le l w2). lia.
Qed.

(** X8: a clean verify pass and an idle apply pass are the same thing.  On a
    cache over which the passes complete, the verify pass adds nothing to
    the log exactly when every demand is met, and exactly then the apply
    pass adds nothing to the command stream; this holds with or without
    resources shared between slots. *)
Theorem clean_verify_iff_idle_apply (w : World) :
  completed (TransitionResources true w) = true →
  (Log (final (TransitionResources true w)) = Log w ↔ all_met w = true)
  ∧ (Commands (final (TransitionResources false w)) = Commands w ↔ all_met w = true).
Proof.
  intros Hdone. split.
  - split.
    + rewrite TransitionResources_slots in Hdone |- *.
      pose proof (verify_pass_exact (slots w) w []) as Hexact.
      rewrite app_nil_r in Hexact.
      replace (with_Log (Log w) w) with w in Hexact by (by destruct w).
      rewrite (Hexact Hdone). cbn [Log with_Log]. intros Hlog.
      apply (f_equal length) in Hlog. rewrite !length_app, length_fmap in Hlog.
      cbn [length] in Hlog. clear Hexact. revert Hlog. unfold all_met, demands.
      induction (omap slot_demand (slots w)) as [|d ds IHds]; [done|].
      cbn [List.filter forallb].
      destruct (met w d); cbn [negb andb length]; [exact IHds|lia].
    + intros Hmet. rewrite TransitionResources_slots.
      by rewrite (met_pass_noop true (slots w) w Hmet).
  - split.
    + intros Hcmd. destruct (all_met w) eqn:Hmet; [done|]. exfalso.
      rewrite TransitionResources_slots in Hdone, Hcmd.
      rewrite (pass_completed_sync true false (slots w) w w) in Hdone.
      pose proof (apply_pass_commands_lt (slots w) w Hdone Hmet) as Hlt.
      rewrite Hcmd in Hlt. lia.
    + intros Hmet. rewrite TransitionResources_slots.
      by rewrite (met_pass_noop false (slots w) w Hmet).
Qed.

(** Whether a pass faults, and with which fault, depends on the slots alone. *)
Lemma pass_fault_sync v1 v2 (l : list (option Resource)) w1 w2 :
  fault_of (for_each l (visit_slot v1) w1) = fault_of (for_each l (visit_slot v2) w2).
Proof.
  revert w1 w2. induction l as [|o l IH]; intros w1 w2; [done|].
  rewrite !for_each_cons. unfold mbind, M_bind. rewrite !visit_slot_table.
  destruct o as [Res|]; [|done].
  destruct (demand Res) as [r state| |f]; [|apply IH|done].
  assert (Hdone : ∀ (v : bool) w, ∃ w',
    (if native_state w r =? state then Done tt w
     else if v then report r w else request r state w) = Done tt w').
  { intros v w. destruct (native_state w r =? state); [by eexists|].
    destruct v; [by eexists|].
    destruct (request_frame r state w) as (w' & -> & _). by eexists. }
  destruct (Hdone v1 w1) as [w1' ->], (Hdone v2 w2) as [w2' ->]. apply IH.
Qed.

(** X9: whether a pass stops short, and on what, is decided by the contents
    of the cache alone.  Two passes over the same cache and block stop with
    the same fault or both complete, whatever their modes and whatever the
    states of the buffers and textures: the verify pass of a debug build
    trips exactly where the apply pass would. *)
Theorem passes_fault_alike (v1 v2 : bool) (w1 w2 : World) :
  Cache w2 = Cache w1 → Heap w2 = Heap w1 →
  fault_of (TransitionResources v1 w1) = fault_of (TransitionResources v2 w2).
Proof.
  intros Hc Hh. rewrite !TransitionResources_slots, (slots_frame w1 w2 Hc Hh).
  apply pass_fault_sync.
Qed.

(** What a request does, in full. *)
Lemma request_effect r state w :
  ∃ w', request r state w = Done tt w'
        ∧ Log w' = Log w
        ∧ Commands w' = Commands w ++ [command_of (r, state)]
        ∧ native_state w' r = state
        ∧ ∀ r', r' ≠ r → native_state w' r' = native_state w r'.
Proof.
  destruct r as [b|t]; (eexists; split; [reflexivity|]); cbn;
    rewrite fn_lookup_insert; cbn; (repeat split);
    intros [b'|t'] Hne; cbn; try done;
    rewrite fn_lookup_insert_ne; congruence.
Qed.

Lemma apply_pass_requests (l : list (option Resource)) w :
  let w' := final (for_each l (visit_slot false) w) in
  Log w' = Log w
  ∧ (∃ ds, Commands w' = Commands w ++ (command_of <$> ds)
           ∧ Forall (λ d, d ∈ omap slot_demand l) ds)
  ∧ ∀ r, native_state w' r = native_state w r
         ∨ ∃ state, (r, state) ∈ omap slot_demand l ∧ native_state w' r = state.
Proof.
  revert w. induction l as [|o l IH]; intros w.
  { cbn. split; [done|]. split; [|by left]. exists []. by rewrite app_nil_r. }
  rewrite for_each_cons. unfold mbind, M_bind. rewrite visit_slot_table.
  assert (Hnone : Log w = Log w
    ∧ (∃ ds, Commands w = Commands w ++ (command_of <$> ds)
             ∧ Forall (λ d, d ∈ omap slot_demand (o :: l)) ds)
    ∧ ∀ r, native_state w r = native_state w r
           ∨ ∃ state, (r, state) ∈ omap slot_demand (o :: l) ∧ native_state w r = state).
  { split; [done|]. split; [|by left]. exists []. by rewrite app_nil_r. }
  destruct o as [Res|]; [|exact Hnone]. cbn [omap list_omap slot_demand] in *.
  destruct (demand Res) as [r state| |f]; [|apply IH|exact Hnone].
  assert (Hweak : ∀ w1,
    (let w' := final (for_each l (visit_slot false) w1) in
     Log w' = Log w1
     ∧ (∃ ds, Commands w' = Commands w1 ++ (command_of <$> ds)
              ∧ Forall (λ d, d ∈ omap slot_demand l) ds)
     ∧ ∀ r0, native_state w' r0 = native_state w1 r0
             ∨ ∃ s, (r0, s) ∈ omap slot_demand l ∧ native_state w' r0 = s) →
    ∀ pre, Log w1 = Log w → Commands w1 = Commands w ++ (command_of <$> pre) →
           Forall (λ d, d ∈ (r, state) :: omap slot_demand l) pre →
           (∀ r0, native_state w1 r0 = native_state w r0
                  ∨ native_state w1 r0 = state ∧ r0 = r) →
    let w' := final (for_each l (visit_slot false) w1) in
    Log w' = Log w
    ∧ (∃ ds, Commands w' = Commands w ++ (command_of <$> ds)
             ∧ Forall (λ d, d ∈ (r, state) :: omap slot_demand l) ds)
    ∧ ∀ r0, native_state w' r0 = native_state w r0
            ∨ ∃ s, (r0, s) ∈ (r, state) :: omap slot_demand l ∧ native_state w' r0 = s).
  { intros w1 (Hlog & (ds & Hcmd & Hds) & Hst) pre Hlog1 Hcmd1 Hpre Hst1. cbv zeta.
    split; [congruence|]. split.
    - exists (pre ++ ds). split.
      + by rewrite Hcmd, Hcmd1, fmap_app, (assoc_L (++)).
      + apply Forall_app. split; [done|].
        eapply Forall_impl; [exact Hds|]. intros d Hd. by right.
    - intros r0. destruct (Hst r0) as [Hsame|(s & Hin & Hs)].
      + destruct (Hst1 r0) as [Hsame1|[Hnew ->]].
        * left. congruence.
        * right. exists state. split; [by left|congruence].
      + right. exists s. split; [by right|done]. }
  destruct (native_state w r =? state).
  - apply (Hweak w (IH w) []); try done.
    + by rewrite app_nil_r.
    + intros r0. by left.
  - destruct (request_effect r state w) as (w1 & -> & Hlog1 & Hcmd1 & Hr & Hother).
    apply (Hweak w1 (IH w1) [(r, state)]); try done.
    + constructor; [by left|done].
    + intros r0. destruct (decide (r0 = r)) as [->|Hne]; [by right|].
      left. by apply Hother.
Qed.

(** X10: apply mode asks for nothing no slot asks for.  Whatever its
    outcome, an apply pass writes no diagnostic; every request it records is
    the barrier or layout transition that brings the resource of some slot
    into the state that slot requires; and every buffer and texture is left
    either in the state it was in or in a state that a slot depending on it
    requires. *)
Theorem apply_requests_only_what_slots_demand (w : World) :
  let w' := final (TransitionResources false w) in
  Log w' = Log w
  ∧ (∃ ds, Commands w' = Commands w ++ (command_of <$> ds)
           ∧ Forall (λ d, d ∈ demands w) ds)
  ∧ ∀ r, native_state w' r = native_state w r
         ∨ ∃ state, (r, state) ∈ demands w ∧ native_state w' r = state.
Proof. rewrite TransitionResources_slots. apply apply_pass_requests. Qed.

(** ** Beyond the order: what teardown releases *)

(** The destructor on a cache that owns a fully constructed block. *)
Lemma destructor_trace (w : World) (a : IMemoryAllocator) :
  m_pMemory (Cache w) ≠ 0 →
  m_pAllocator (Cache w) = Some a →
  fully_constructed w = true →
  ∃ w', destroy_ShaderResourceCacheVk w = Done tt w'
        ∧ Cache w' = Cache w
        ∧ Trace w' = Trace w ++ teardown_trace w
        ∧ Buffers w' = Buffers w ∧ Textures w' = Textures w
        ∧ Commands w' = Commands w ∧ Log w' = Log w.
Proof.
  intros Hmem Halloc Hfull.
  apply fully_constructed_spec in Hfull as [Hsets Hslots].
  (* the destructors change the block and the trace only *)
  set (Q := λ w0 w' : World,
         Cache w' = Cache w0 ∧ Buffers w' = Buffers w0 ∧ Textures w' = Textures w0
         ∧ Commands w' = Commands w0 ∧ Log w' = Log w0).
  assert (Hframe : ∀ w0, Q w0 (final (destroy_ShaderResourceCacheVk w0))).
  { intros w0. unfold destroy_ShaderResourceCacheVk.
    unfold mbind at 1, M_bind at 1, get at 1.
    destruct (negb _); [|done].
    set (P := Q w0).
    assert (HP0 : P w0) by done.
    unfold mbind at 1, M_bind at 1.
    match goal with
    | |- context [for_each ?l ?body w0] =>
        pose proof (for_each_invariant P l body w0) as Hinv1
    end.
    match type of Hinv1 with
    | _ → _ → P (final ?o) =>
        assert (H1 : P (final o));
        [apply Hinv1; [|done]|clear Hinv1]
    end.
    { intros res w' _ Hw'. unfold destroy_Resource, load_Resource. run_monad.
      by destruct (Heap w' !! _) as [[d|r]|]. }
    match type of H1 with
    | P (final ?o) => destruct o as [[] w1|e w1]; [|exact H1]
    end.
    cbn [final] in H1. unfold mbind at 1, M_bind at 1.
    match goal with
    | |- context [for_each ?l ?body w1] =>
        pose proof (for_each_invariant P l body w1) as Hinv2
    end.
    match type of Hinv2 with
    | _ → _ → P (final ?o) =>
        assert (H2 : P (final o));
        [apply Hinv2; [|done]|clear Hinv2]
    end.
    { intros t w' _ Hw'.
      unfold GetDescriptorSet, destroy_DescriptorSet, load_DescriptorSet. run_monad.
      destruct (t <? _); [|done]. cbn.
      by destruct (Heap w' !! _) as [[d|r]|]. }
    match type of H2 with
    | P (final ?o) => destruct o as [[] w2|e w2]; [|exact H2]
    end.
    cbn [final] in H2. by destruct (m_pAllocator (Cache w0)). }
  assert (Hrun : ∃ w', destroy_ShaderResourceCacheVk w = Done tt w'
                       ∧ Trace w' = Trace w ++ teardown_trace w).
  { unfold destroy_ShaderResourceCacheVk.
    unfold mbind at 1, M_bind at 1, get at 1.
    rewrite (proj2 (Z.eqb_neq _ _) Hmem). cbn [negb].
    unfold mbind at 1, M_bind at 1.
    change (for_each (seqZ 0 (m_TotalResources (Cache w)))
              (λ res, destroy_Resource (pResources_of (Cache w) + res * sizeof_Resource)) w)
      with (for_each (seqZ 0 (m_TotalResources (Cache w)))
              (λ res, destroy_Resource (Resource_addr (Cache w) res)) w).
    rewrite <- (for_each_fmap (Resource_addr (Cache w)) _ destroy_Resource).
    destruct (destroy_Resources (flat_slots (Cache w)) w w)
      as (w1 & Hrun1 & Hc1 & Ht1 & Hh1).
    { apply flat_slots_NoDup. }
    { intros addr Haddr. split; [done|].
      apply list_elem_of_fmap in Haddr as (res & -> & Hres).
      apply elem_of_seqZ in Hres.
      destruct (Hslots res ltac:(lia)) as [r Hr]. unfold slot_at in Hr.
      destruct (Heap w !! _) as [[d|r']|]; try done. by exists r'. }
    unfold flat_slots in Hrun1. rewrite Hrun1.
    unfold mbind at 1, M_bind at 1.
    assert (Hloop2 :
      for_each (seqZ 0 (m_NumSets (Cache w)))
        (λ t, a0 ← GetDescriptorSet t; destroy_DescriptorSet a0) w1
      = for_each (DescriptorSet_addr (Cache w) <$> seqZ 0 (m_NumSets (Cache w)))
          destroy_DescriptorSet w1).
    { rewrite for_each_fmap.
      apply (for_each_ext_inv (λ w', Cache w' = Cache w)); [|done].
      intros t w' Ht Hc'. apply elem_of_seqZ in Ht.
      unfold GetDescriptorSet. run_monad. rewrite Hc'.
      rewrite (proj2 (Z.ltb_lt _ _)) by lia. split; [done|].
      unfold destroy_DescriptorSet, load_DescriptorSet. run_monad.
      by destruct (Heap w' !! _) as [[d|r]|]. }
    rewrite Hloop2.
    destruct (destroy_DescriptorSets
                (DescriptorSet_addr (Cache w) <$> seqZ 0 (m_NumSets (Cache w))) w1)
      as (w2 & -> & Hc2 & Ht2).
    { apply NoDup_fmap_2; [apply DescriptorSet_addr_inj|apply NoDup_seqZ]. }
    { intros addr Haddr.
      apply list_elem_of_fmap in Haddr as (t & -> & Ht).
      apply elem_of_seqZ in Ht.
      destruct (Hsets t ltac:(lia)) as [d Hd]. unfold header_at in Hd.
      rewrite Hh1.
      - destruct (Heap w !! _) as [[d'|r]|]; try done. by exists d'.
      - intros Hin. apply list_elem_of_fmap in Hin as (res & Heq & Hres).
        apply elem_of_seqZ in Hres.
        pose proof (header_below_slots (Cache w) t res). lia. }
    rewrite Halloc. eexists. split; [reflexivity|].
    cbn. rewrite Ht2, Ht1.
    unfold teardown_trace, slots_destroyed, sets_destroyed, block_freed, flat_slots.
    by rewrite Halloc, <- !(assoc_L (++)), <- !list_fmap_compose. }
  destruct Hrun as (w' & Hrun & Htrace). exists w'.
  pose proof (Hframe w) as Hf. rewrite Hrun in Hf.
  destruct Hf as (? & ? & ? & ? & ?). done.
Qed.

Lemma count_fmap {A B} (f : B → bool) (g : A → bool) (h : A → B) (l : list A) :
  (∀ x, f (h x) = g x) →
  length (List.filter f (h <$> l)) = length (List.filter g l).
Proof.
  intros Hfg. induction l as [|x l IH]; [done|].
  rewrite fmap_cons. cbn [List.filter]. rewrite Hfg.
  destruct (g x); cbn [length]; by rewrite IH.
Qed.

Lemma count_none {A} (f : A → bool) (l : list A) :
  (∀ x, f x = false) → length (List.filter f l) = 0%nat.
Proof.
  intros Hf. induction l as [|x l IH]; [done|].
  cbn [List.filter]. by rewrite Hf.
Qed.

Lemma releases_teardown_trace o w :
  releases o (teardown_trace w) = holders o w.
Proof.
  unfold releases, teardown_trace. rewrite !List.filter_app, !length_app.
  unfold sets_destroyed, block_freed.
  rewrite (count_fmap _ (λ _, false)) by done.
  rewrite (count_none (λ _ : Z, false)) by done.
  replace (length (List.filter _ match m_pAllocator (Cache w) with
                                 | Some a => _ | None => [] end)) with 0%nat
    by (by destruct (m_pAllocator (Cache w))).
  rewrite !Nat.add_0_r. unfold holders, slots, slots_destroyed.
  rewrite (count_fmap _ (λ res, match slot_at w res with
                                | Some Res => bool_decide (pObject Res = Some o)
                                | None => false
                                end)).
  - symmetry. by apply count_fmap.
  - intros res. unfold released_at, slot_at.
    destruct (Heap w !! _) as [[d|[kind [o'|]]]|]; cbn; try done.
    apply bool_decide_ext. split; congruence.
Qed.

Lemma frees_teardown_trace w a :
  m_pAllocator (Cache w) = Some a → frees (teardown_trace w) = 1%nat.
Proof.
  intros Ha. unfold frees, teardown_trace. rewrite !List.filter_app, !length_app.
  unfold slots_destroyed, sets_destroyed, block_freed. rewrite Ha.
  rewrite !(count_fmap _ (λ _, false)) by done.
  by rewrite !(count_none (λ _ : Z, false)) by done.
Qed.

(** X11: teardown releases every reference the cache holds, once.  The
    destructor of a cache that owns a fully constructed block completes; for
    every device object, the releases it records are as many as the slots
    that hold the object; the block is freed once; and the buffers, the
    textures, the command stream and the log are not touched. *)
Theorem teardown_releases_every_reference_once (w : World) (a : IMemoryAllocator) :
  m_pMemory (Cache w) ≠ 0 →
  m_pAllocator (Cache w) = Some a →
  fully_constructed w = true →
  ∃ w' released,
    destroy_ShaderResourceCacheVk w = Done tt w'
    ∧ Trace w' = Trace w ++ released
    ∧ (∀ o, releases o released = holders o w)
    ∧ frees released = 1%nat
    ∧ Buffers w' = Buffers w ∧ Textures w' = Textures w
    ∧ Commands w' = Commands w ∧ Log w' = Log w.
Proof.
  intros Hmem Halloc Hfull.
  destruct (destructor_trace w a Hmem Halloc Hfull)
    as (w' & Hrun & _ & Htrace & Hb & Ht & Hc & Hl).
  exists w', (teardown_trace w). split; [exact Hrun|]. split; [exact Htrace|].
  split; [intros o; apply releases_teardown_trace|].
  split; [by apply (frees_teardown_trace w a)|]. done.
Qed.

(** ** From initialisation to teardown *)





End Properties.

(** * The properties on the concrete device *)

Import Example.

Ltac by_computation :=
  vm_compute; first [reflexivity | discriminate | (let Hc := fresh in intro Hc; discriminate Hc)].

(** The end-to-end scenario of the spec: the apply pass records one barrier
    for the buffer and one layout transition for the texture and brings them
    into the uniform-read state and the shader-read-only layout; a verify
    pass after it reports nothing. *)
Lemma end_to_end_scenario :
  let applied := run (TransitionResources false) scenario in
  completed (TransitionResources false scenario) = true
  ∧ Commands applied
    = [CmdBufferMemoryBarrier 1 VK_ACCESS_UNIFORM_READ_BIT;
       CmdTransitionImageLayout 2 VK_IMAGE_LAYOUT_SHADER_READ_ONLY_OPTIMAL]
  ∧ AccessFlags (Buffers applied 1) = VK_ACCESS_UNIFORM_READ_BIT
  ∧ Layout (Textures applied 2) = VK_IMAGE_LAYOUT_SHADER_READ_ONLY_OPTIMAL
  ∧ completed (TransitionResources true applied) = true
  ∧ Log (run (TransitionResources true) applied) = [].
Proof. repeat split; by_computation. Qed.

(** C3, as stated, fails on set sizes whose sum passes [2^32]: each size is
    a [Uint32], the count wraps to [0], the block is sized for the headers
    alone, and the final assertion of [InitializeSets] stops the call; the
    total it leaves is not the sum of the sizes. *)
Lemma InitializeSets_overflow :
  Forall is_Uint32 overflowing
  ∧ completed (InitializeSets allocator 2 overflowing fresh) = false
  ∧ InitializeSets allocator 2 overflowing fresh
    = Abort LayoutInvariantViolated (final (InitializeSets allocator 2 overflowing fresh))
  ∧ m_TotalResources (Cache (final (InitializeSets allocator 2 overflowing fresh))) = 0
  ∧ Zsum overflowing = 2 ^ 32.
Proof.
  split; [repeat constructor; by_computation|].
  repeat split; by_computation.
Qed.

Lemma InitializeSets_layout_witness :
  Cache fresh = empty_cache
  ∧ Forall is_Uint32 [2; 1]
  ∧ Z.of_nat (length [2; 1]) ≤ Uint32_MAX
  ∧ Zsum [2; 1] ≤ Uint32_MAX
  ∧ ∃ w' ds,
      InitializeSets allocator 2 [2; 1] fresh = Done tt w'
      ∧ m_TotalResources (Cache w') = 3
      ∧ m_NumResources <$> ds = [2; 1]
      ∧ mjoin (slot_view <$> ds) = flat_slots (Cache w')
      ∧ NoDup (flat_slots (Cache w')).
Proof.
  assert (H1 : Cache fresh = empty_cache) by reflexivity.
  assert (H2 : Forall is_Uint32 [2; 1]) by (repeat constructor; by_computation).
  assert (H3 : Z.of_nat (length [2; 1]) ≤ Uint32_MAX) by by_computation.
  assert (H4 : Zsum [2; 1] ≤ Uint32_MAX) by by_computation.
  destruct (InitializeSets_layout allocator [2; 1] fresh H1 H2 H3 H4)
    as (w' & ds & Hrun & _ & Htotal & _ & Hsizes & _ & _ & Hcover & Hnodup & _).
  repeat (split; [assumption|]).
  exists w', ds. repeat (split; [assumption|]). assumption.
Defined.

Lemma second_InitializeSets_is_rejected_witness :
  InitializeSets allocator 2 [2; 1] fresh = Done tt initialised
  ∧ InitializeSets allocator 1 [5] initialised = Abort AlreadyInitialized initialised.
Proof.
  assert (H1 : InitializeSets allocator 2 [2; 1] fresh = Done tt initialised)
    by by_computation.
  split; [exact H1|].
  exact (second_InitializeSets_is_rejected allocator allocator 2 1 [2; 1] [5]
           fresh initialised H1).
Defined.

(** C6, as stated, fails on a cache of two sets: the destructor destroys the
    header of set 0 before the header of set 1, the order in which they were
    constructed, not the reverse. *)
Lemma teardown_is_not_in_reverse_order :
  Trace (final (destroy_ShaderResourceCacheVk typed))
  = Trace typed ++ teardown_trace typed
  ∧ Trace (final (destroy_ShaderResourceCacheVk typed))
    ≠ Trace typed ++ spec_teardown_trace typed.
Proof. split; by_computation. Qed.

Lemma teardown_order_witness :
  m_pMemory (Cache typed) ≠ 0
  ∧ m_pAllocator (Cache typed) = Some allocator
  ∧ fully_constructed typed = true
  ∧ ∃ w', destroy_ShaderResourceCacheVk typed = Done tt w'
          ∧ Trace w' = Trace typed ++ teardown_trace typed.
Proof.
  assert (H1 : m_pMemory (Cache typed) ≠ 0) by by_computation.
  assert (H2 : m_pAllocator (Cache typed) = Some allocator) by by_computation.
  assert (H3 : fully_constructed typed = true) by by_computation.
  repeat (split; [assumption|]).
  exact (proj1 (teardown_order typed allocator H1 H2 H3)).
Defined.

Lemma InitializeResources_kind_is_kept_witness :
  0 ≤ 0 < m_NumSets (Cache initialised)
  ∧ header_at initialised 0 = Some (mkDescriptorSet 2 4144)
  ∧ pResources_of (Cache initialised) ≤ m_pResources (mkDescriptorSet 2 4144)
  ∧ 0 ≤ 2
  ∧ 0 + 2 ≤ m_NumResources (mkDescriptorSet 2 4144) ≤ Uint32_MAX
  ∧ ∃ w1,
      InitializeResources 0 0 2 UniformBuffer initialised = Done tt w1
      ∧ ReadResource 0 1 w1 = Done (mkResource UniformBuffer None) w1
      ∧ ∃ pObj,
          ReadResource 0 1
            (final (uses [UseSetResource 0 1 (Some (ObjBufferVk 7));
                          UseTransitionResources false;
                          UseSetResource 0 1 None] w1))
          = Done (mkResource UniformBuffer pObj)
              (final (uses [UseSetResource 0 1 (Some (ObjBufferVk 7));
                            UseTransitionResources false;
                            UseSetResource 0 1 None] w1)).
Proof.
  assert (H1 : 0 ≤ 0 < m_NumSets (Cache initialised)) by (split; by_computation).
  assert (H2 : header_at initialised 0 = Some (mkDescriptorSet 2 4144)) by by_computation.
  assert (H3 : pResources_of (Cache initialised) ≤ m_pResources (mkDescriptorSet 2 4144))
    by by_computation.
  assert (H4 : 0 ≤ 0) by by_computation.
  assert (H5 : 0 ≤ 2) by by_computation.
  assert (H6 : 0 + 2 ≤ m_NumResources (mkDescriptorSet 2 4144) ≤ Uint32_MAX)
    by (split; by_computation).
  destruct (InitializeResources_kind_is_kept initialised 0 0 2 UniformBuffer
              (mkDescriptorSet 2 4144) H1 H2 H3 H4 H5 H6)
    as (w1 & Hrun & Hread & Hkept).
  repeat (split; [assumption|]).
  exists w1. split; [exact Hrun|]. split.
  - apply Hread. split; by_computation.
  - apply Hkept. split; by_computation.
Defined.

Lemma unexpected_kind_is_fatal_witness :
  0 ≤ 1 < m_TotalResources (Cache unclassified)
  ∧ slot_at unclassified 1 = Some (mkResource (UnknownType 9) None)
  ∧ completed (TransitionResources false unclassified) = false.
Proof.
  assert (H1 : 0 ≤ 1 < m_TotalResources (Cache unclassified)) by (split; by_computation).
  assert (H2 : slot_at unclassified 1 = Some (mkResource (UnknownType 9) None))
    by by_computation.
  repeat (split; [assumption|]).
  exact (proj1 (proj2 (unexpected_kind_is_fatal false unclassified 1 9 None H1 H2))).
Defined.

Lemma unbound_slot_is_unguarded_witness :
  (all_bound bound = true ∧ all_in_order bound = true
   ∧ completed (TransitionResources true bound) = true)
  ∧ (0 ≤ 1 < m_TotalResources (Cache half_bound)
     ∧ slot_at half_bound 1 = Some (mkResource UniformBuffer None)
     ∧ TransitionResources_upto false 1 half_bound
       = Done tt (run (TransitionResources_upto false 1) half_bound)
     ∧ TransitionResources false half_bound
       = Abort NullDereference (run (TransitionResources_upto false 1) half_bound)
     ∧ Commands (run (TransitionResources false) half_bound)
       = [CmdBufferMemoryBarrier 7 VK_ACCESS_UNIFORM_READ_BIT])
  ∧ (all_in_order half_bound = true ∧ all_bound half_bound = false
     ∧ fault_of (TransitionResources true half_bound) = Some NullDereference).
Proof.
  assert (H1 : all_bound bound = true) by by_computation.
  assert (H2 : all_in_order bound = true) by by_computation.
  assert (H3 : 0 ≤ 1 < m_TotalResources (Cache half_bound)) by (split; by_computation).
  assert (H4 : slot_at half_bound 1 = Some (mkResource UniformBuffer None))
    by by_computation.
  assert (H5 : TransitionResources_upto false 1 half_bound
               = Done tt (run (TransitionResources_upto false 1) half_bound))
    by by_computation.
  assert (H6 : all_in_order half_bound = true) by by_computation.
  assert (H7 : all_bound half_bound = false) by by_computation.
  destruct (unbound_slot_is_unguarded true bound) as (Hpre & _).
  destruct (unbound_slot_is_unguarded false half_bound) as (_ & _ & Hreach & _).
  destruct (unbound_slot_is_unguarded true half_bound) as (_ & _ & _ & Hnec).
  pose proof (Hreach 1 _ _ H3 H4 eq_refl eq_refl H5) as Hstop.
  split; [|split].
  - split; [exact H1|]. split; [exact H2|]. exact (proj2 (Hpre H1) H2).
  - split; [exact H3|]. split; [exact H4|]. split; [exact H5|].
    split; [exact Hstop|]. unfold run at 1. rewrite Hstop. by_computation.
  - split; [exact H6|]. split; [exact H7|]. exact (proj2 (Hnec H6) H7).
Defined.

(** C2, as stated, fails when two slots share a buffer: with buffer 7, in no
    access state yet, bound to two uniform-buffer slots, the verify pass
    reports a mismatch at the second slot, while the apply pass, which has
    brought the buffer into the required state at the first slot, emits
    nothing at the second. *)
Lemma verify_apply_disagree_on_aliased :
  reports_at aliased 1 = true ∧ emits_at aliased 1 = false.
Proof. split; by_computation. Qed.

Lemma verify_apply_agree_without_aliasing_witness :
  no_aliasing bound = true
  ∧ 0 ≤ 1 < m_TotalResources (Cache bound)
  ∧ reports_at bound 1 = emits_at bound 1.
Proof.
  assert (H1 : no_aliasing bound = true) by by_computation.
  assert (H2 : 0 ≤ 1 < m_TotalResources (Cache bound)) by (split; by_computation).
  repeat (split; [assumption|]).
  exact (verify_apply_agree_without_aliasing bound 1 H1 H2).
Defined.

(** C10, as stated, fails when one buffer is bound to slots that require
    different states of it: with buffer 7 bound to a uniform-buffer slot and
    to a storage-buffer slot, the first apply pass leaves the buffer in the
    state the second slot requires, and the second apply pass emits two
    barriers again. *)
Lemma apply_twice_emits_again_on_conflict :
  ∃ w1 w2,
    TransitionResources false conflicting = Done tt w1
    ∧ TransitionResources false w1 = Done tt w2
    ∧ Commands w2 = Commands w1 ++ [CmdBufferMemoryBarrier 7 8; CmdBufferMemoryBarrier 7 96].
Proof.
  exists (run (TransitionResources false) conflicting),
         (run (TransitionResources false) (run (TransitionResources false) conflicting)).
  repeat split; by_computation.
Qed.

Lemma apply_twice_emits_nothing_witness :
  consistent_demands bound = true
  ∧ TransitionResources false bound = Done tt (run (TransitionResources false) bound)
  ∧ TransitionResources false (run (TransitionResources false) bound)
    = Done tt (run (TransitionResources false) bound).
Proof.
  assert (H1 : consistent_demands bound = true) by by_computation.
  assert (H2 : TransitionResources false bound
               = Done tt (run (TransitionResources false) bound)) by by_computation.
  repeat (split; [assumption|]).
  exact (proj1 (apply_twice_emits_nothing bound _ H1 H2)).
Defined.

(** * Further properties on the concrete device *)

Lemma InitializeSets_completes_iff_byte_sizes_agree_witness :
  Cache fresh = empty_cache
  ∧ Forall is_Uint32 unnoticed
  ∧ Z.of_nat (length unnoticed) ≤ Uint32_MAX
  ∧ Uint32_MAX < Zsum unnoticed
  ∧ @InitializeSets big_slots allocator 5 unnoticed fresh
    = Done tt (final (@InitializeSets big_slots allocator 5 unnoticed fresh))
  ∧ m_TotalResources (Cache (final (@InitializeSets big_slots allocator 5 unnoticed fresh)))
    = 0.
Proof.
  assert (H1 : Cache fresh = empty_cache) by reflexivity.
  assert (H2 : Forall is_Uint32 unnoticed) by (repeat constructor; by_computation).
  assert (H3 : Z.of_nat (length unnoticed) ≤ Uint32_MAX) by by_computation.
  assert (H4 : Uint32_MAX < Zsum unnoticed) by by_computation.
  repeat (split; [assumption|]).
  destruct (@InitializeSets_completes_iff_byte_sizes_agree big_slots
              allocator unnoticed fresh H1 H2 H3) as (Hrun & Htotal & _).
  split; [exact Hrun|exact Htotal].
Defined.


Lemma InitializeSets_constructs_only_headers_witness :
  Cache fresh = empty_cache
  ∧ Forall is_Uint32 [2; 1]
  ∧ Z.of_nat (length [2; 1]) ≤ Uint32_MAX
  ∧ Commands initialised = Commands fresh
  ∧ Log initialised = Log fresh
  ∧ Heap initialised !! Resource_addr (Cache initialised) 0
    = Heap fresh !! Resource_addr (Cache initialised) 0.
Proof.
  assert (H1 : Cache fresh = empty_cache) by reflexivity.
  assert (H2 : Forall is_Uint32 [2; 1]) by (repeat constructor; by_computation).
  assert (H3 : Z.of_nat (length [2; 1]) ≤ Uint32_MAX) by by_computation.
  destruct (InitializeSets_constructs_only_headers allocator [2; 1] fresh H1 H2 H3)
    as (_ & _ & Hc & Hl & _ & Hslots).
  split; [exact H1|]. split; [exact H2|]. split; [exact H3|].
  split; [exact Hc|]. split; [exact Hl|].
  apply Hslots. by_computation.
Defined.

Lemma InitializeResources_writes_only_its_range_witness :
  0 ≤ 0 < m_NumSets (Cache bound)
  ∧ header_at bound 0 = Some (mkDescriptorSet 2 4144)
  ∧ pResources_of (Cache bound) ≤ m_pResources (mkDescriptorSet 2 4144)
  ∧ 0 ≤ 1
  ∧ 0 + 1 ≤ m_NumResources (mkDescriptorSet 2 4144) ≤ Uint32_MAX
  ∧ ∃ w1, InitializeResources 0 0 1 StorageBuffer bound = Done tt w1
          ∧ w1 = with_Heap (Heap w1) bound
          ∧ slot_at w1 1 = slot_at bound 1.
Proof.
  assert (H1 : 0 ≤ 0 < m_NumSets (Cache bound)) by (split; by_computation).
  assert (H2 : header_at bound 0 = Some (mkDescriptorSet 2 4144)) by by_computation.
  assert (H3 : pResources_of (Cache bound) ≤ m_pResources (mkDescriptorSet 2 4144))
    by by_computation.
  assert (H4 : 0 ≤ 0) by by_computation.
  assert (H5 : 0 ≤ 1) by by_computation.
  assert (H6 : 0 + 1 ≤ m_NumResources (mkDescriptorSet 2 4144) ≤ Uint32_MAX)
    by (split; by_computation).
  destruct (InitializeResources_writes_only_its_range bound 0 0 1 StorageBuffer
              (mkDescriptorSet 2 4144) H1 H2 H3 H4 H5 H6)
    as (w1 & Hrun & Hw1 & Hother).
  repeat (split; [assumption|]).
  exists w1. split; [exact Hrun|]. split; [exact Hw1|].
  unfold slot_at. rewrite Hw1. cbn [Cache with_Heap Heap].
  rewrite (Hother (Resource_addr (Cache bound) 1)); [reflexivity|].
  intros i Hi. assert (i = 0) as -> by lia. by_computation.
Defined.

Lemma InitializeResources_split_witness :
  0 ≤ 1 ∧ 0 ≤ 1
  ∧ InitializeResources 0 0 (1 + 1) UniformBuffer initialised
    = (InitializeResources 0 0 1 UniformBuffer;;
       InitializeResources 0 (wrap32 (0 + 1)) 1 UniformBuffer) initialised.
Proof.
  assert (H1 : 0 ≤ 1) by by_computation.
  repeat (split; [assumption|]).
  exact (InitializeResources_split initialised 0 0 1 1 UniformBuffer H1 H1).
Defined.

Lemma steady_state_pass_is_noop_witness :
  all_met settled = true
  ∧ final (TransitionResources true settled) = settled
  ∧ final (TransitionResources false settled) = settled.
Proof.
  assert (H1 : all_met settled = true) by by_computation.
  split; [exact H1|]. split.
  - exact (steady_state_pass_is_noop true settled H1).
  - exact (steady_state_pass_is_noop false settled H1).
Defined.

Lemma verify_reports_every_mismatch_witness :
  completed (TransitionResources true aliased) = true
  ∧ final (TransitionResources true aliased)
    = with_Log (Log aliased ++ ((λ d, mismatch_message aliased d.1) <$> mismatches aliased))
        aliased.
Proof.
  assert (H1 : completed (TransitionResources true aliased) = true) by by_computation.
  split; [exact H1|]. exact (verify_reports_every_mismatch aliased H1).
Defined.

Lemma clean_verify_iff_idle_apply_witness :
  completed (TransitionResources true aliased) = true
  ∧ (Log (final (TransitionResources true aliased)) = Log aliased
     ↔ all_met aliased = true)
  ∧ (Commands (final (TransitionResources false aliased)) = Commands aliased
     ↔ all_met aliased = true).
Proof.
  assert (H1 : completed (TransitionResources true aliased) = true) by by_computation.
  split; [exact H1|]. exact (clean_verify_iff_idle_apply aliased H1).
Defined.

Lemma passes_fault_alike_witness :
  Cache settled = Cache bound
  ∧ Heap settled = Heap bound
  ∧ fault_of (TransitionResources true bound) = fault_of (TransitionResources false settled).
Proof.
  assert (H1 : Cache settled = Cache bound) by by_computation.
  assert (H2 : Heap settled = Heap bound) by by_computation.
  repeat (split; [assumption|]).
  exact (passes_fault_alike true false bound settled H1 H2).
Defined.

Lemma teardown_releases_every_reference_once_witness :
  m_pMemory (Cache aliased) ≠ 0
  ∧ m_pAllocator (Cache aliased) = Some allocator
  ∧ fully_constructed aliased = true
  ∧ holders (ObjBufferVk 7) aliased = 2%nat
  ∧ ∃ w' released,
      destroy_ShaderResourceCacheVk aliased = Done tt w'
      ∧ Trace w' = Trace aliased ++ released
      ∧ releases (ObjBufferVk 7) released = 2%nat
      ∧ frees released = 1%nat.
Proof.
  assert (H1 : m_pMemory (Cache aliased) ≠ 0) by by_computation.
  assert (H2 : m_pAllocator (Cache aliased) = Some allocator) by by_computation.
  assert (H3 : fully_constructed aliased = true) by by_computation.
  assert (H4 : holders (ObjBufferVk 7) aliased = 2%nat) by by_computation.
  destruct (teardown_releases_every_reference_once aliased allocator H1 H2 H3)
    as (w' & released & Hrun & Htrace & Hrel & Hfree & _).
  repeat (split; [assumption|]).
  exists w', released. split; [exact Hrun|]. split; [exact Htrace|].
  split; [|exact Hfree]. rewrite Hrel. exact H4.
Defined.

